(** * ai-personal-email-assistant: a shallow embedding and its checked properties

  The Python modules under [modules/], [truncate_text] of [utils/helpers.py]
  and the handlers of the Inbox page of [app.py] are embedded as Rocq
  functions.  External collaborators (the mail, calendar and
  search providers, the text-generation model, the relational engine) appear
  as explicit oracles or as small models of the library calls the code makes.

  Conventions:
  - a Python [str] is a [string] (its UTF-8 bytes); the character classes the
    code relies on ([<], [>], [:], newline, ASCII white space) are ASCII;
  - a call that may raise returns [res A]; [try/except Exception] blocks are
    written out with [catch];
  - a [dict] with string keys is a [gmap string _]. *)

From Stdlib Require Import ZArith Ascii String List Lia Permutation Sorted.
From stdpp Require Import base option list strings gmap sorting pretty.

#[local] Set Warnings "-register-all".

Local Open Scope string_scope.
Local Open Scope list_scope.
Local Open Scope Z_scope.

(* ===================================================================== *)
(** ** Python run-time conventions *)
(* ===================================================================== *)

Module Py.

(** The exception classes the embedded code can meet. *)
Inductive exn : Type :=
| KeyError
| TypeError
| ValueError
| AttributeError
| IntegrityError       (* sqlalchemy.exc.IntegrityError *)
| DecodeError          (* binascii.Error / UnicodeDecodeError *)
| ProviderError        (* googleapiclient / requests failures *)
| IndexError.

(** Outcome of a call: a value, or a raised exception. *)
Inductive res (A : Type) : Type :=
| Ok (a : A)
| Raise (e : exn).
Arguments Ok {A} a.
Arguments Raise {A} e.

Definition bind {A B} (m : res A) (k : A -> res B) : res B :=
  match m with
  | Ok a => k a
  | Raise e => Raise e
  end.

Definition rmap {A B} (f : A -> B) (m : res A) : res B :=
  bind m (fun a => Ok (f a)).

(** [try: m  except Exception: return d] *)
Definition catch {A} (m : res A) (d : A) : A :=
  match m with
  | Ok a => a
  | Raise _ => d
  end.

(** Truthiness of a [str]: non-empty. *)
Definition truthy (s : string) : bool :=
  match s with EmptyString => false | String _ _ => true end.

(** [d.get(k)] used as a condition: present and non-empty. *)
Definition truthy_opt (o : option string) : bool :=
  match o with Some s => truthy s | None => false end.

(** [str.isspace] on an ASCII character: TAB, LF, VT, FF, CR, the four
    separators FS, GS, RS, US, and SPACE. *)
Definition isspace (c : ascii) : bool :=
  let n := nat_of_ascii c in
  ((9 <=? n)%nat && (n <=? 13)%nat) || ((28 <=? n)%nat && (n <=? 32)%nat).

Fixpoint lstrip (s : string) : string :=
  match s with
  | EmptyString => EmptyString
  | String c r => if isspace c then lstrip r else s
  end.

Fixpoint rstrip (s : string) : string :=
  match s with
  | EmptyString => EmptyString
  | String c r =>
      match rstrip r with
      | EmptyString => if isspace c then EmptyString else String c EmptyString
      | r' => String c r'
      end
  end.

(** [s.strip()] *)
Definition strip (s : string) : string := rstrip (lstrip s).

(** [c in s] for a one-character needle. *)
Fixpoint contains (c : ascii) (s : string) : bool :=
  match s with
  | EmptyString => false
  | String a r => if Ascii.eqb a c then true else contains c r
  end.

(** [s.split(sep)] for a one-character separator: never empty. *)
Fixpoint split (sep : ascii) (s : string) : list string :=
  match s with
  | EmptyString => [EmptyString]
  | String a r =>
      if Ascii.eqb a sep then EmptyString :: split sep r
      else match split sep r with
           | [] => [String a EmptyString]
           | w :: ws => String a w :: ws
           end
  end.

(** [s.split(sep, 1)]: at most one cut, at the first separator. *)
Fixpoint split1 (sep : ascii) (s : string) : list string :=
  match s with
  | EmptyString => [EmptyString]
  | String a r =>
      if Ascii.eqb a sep then [EmptyString; r]
      else match split1 sep r with
           | w :: ws => String a w :: ws
           | [] => [String a EmptyString]
           end
  end.

(** [a, b = xs]: unpacking into exactly two names. *)
Definition unpack2 {A} (xs : list A) : res (A * A) :=
  match xs with
  | [a; b] => Ok (a, b)
  | _ => Raise ValueError
  end.

(** The one-character string "\n". *)
Definition nl : string := String "010" EmptyString.

(** The value of a character of the URL-safe base64 alphabet ([+] and [/]
    count as [-] and [_]). *)
Definition b64_value (c : ascii) : option N :=
  let n := N_of_ascii c in
  if ((65 <=? n) && (n <=? 90))%N then Some (n - 65)%N
  else if ((97 <=? n) && (n <=? 122))%N then Some (n - 71)%N
  else if ((48 <=? n) && (n <=? 57))%N then Some (n + 4)%N
  else if Ascii.eqb c "-" || Ascii.eqb c "+" then Some 62%N
  else if Ascii.eqb c "_" || Ascii.eqb c "/" then Some 63%N
  else None.

(** [base64.urlsafe_b64decode(s).decode('utf-8')] on padded input made of
    alphabet characters only; a text is kept as its bytes.  Input that the
    library would repair (stray characters) or that is not valid UTF-8 is not
    covered: it raises here. *)
Fixpoint b64_text (s : string) : res string :=
  match s with
  | EmptyString => Ok EmptyString
  | String a (String b (String c (String d r))) =>
      match b64_value a, b64_value b with
      | Some x, Some y =>
          let byte1 := ascii_of_N (x * 4 + y / 16) in
          if Ascii.eqb c "=" then
            if Ascii.eqb d "=" && negb (truthy r)
            then Ok (String byte1 EmptyString) else Raise DecodeError
          else
            match b64_value c with
            | Some z =>
                let byte2 := ascii_of_N ((y mod 16) * 16 + z / 4) in
                if Ascii.eqb d "=" then
                  if negb (truthy r)
                  then Ok (String byte1 (String byte2 EmptyString))
                  else Raise DecodeError
                else
                  match b64_value d with
                  | Some w =>
                      let byte3 := ascii_of_N ((z mod 4) * 64 + w) in
                      rmap (fun rest => String byte1 (String byte2 (String byte3 rest)))
                           (b64_text r)
                  | None => Raise DecodeError
                  end
            | None => Raise DecodeError
            end
      | _, _ => Raise DecodeError
      end
  | _ => Raise DecodeError
  end.

(** [s[:n]] *)
Fixpoint take_string (n : nat) (s : string) : string :=
  match n, s with
  | S k, String c r => String c (take_string k r)
  | _, _ => EmptyString
  end.

(** [s[n:]] *)
Fixpoint drop_string (n : nat) (s : string) : string :=
  match n, s with
  | S k, String _ r => drop_string k r
  | _, _ => s
  end.

(** [s.startswith(p)] *)
Fixpoint startswith (p s : string) : bool :=
  match p with
  | EmptyString => true
  | String a p' =>
      match s with
      | EmptyString => false
      | String b s' => Ascii.eqb a b && startswith p' s'
      end
  end.

(** [s.split()]: the maximal runs of characters that are not white space. *)
Fixpoint split_ws_from (word : string) (s : string) : list string :=
  match s with
  | EmptyString =>
      match word with EmptyString => [] | _ => [word] end
  | String c r =>
      if isspace c then
        match word with
        | EmptyString => split_ws_from EmptyString r
        | _ => word :: split_ws_from EmptyString r
        end
      else split_ws_from (word +:+ String c EmptyString) r
  end.

Definition split_ws (s : string) : list string := split_ws_from EmptyString s.

(** [sep.join(words)] *)
Fixpoint join (sep : string) (words : list string) : string :=
  match words with
  | [] => EmptyString
  | [w] => w
  | w :: rest => w +:+ sep +:+ join sep rest
  end.

(** [xs[0]] *)
Definition first_item {A} (xs : list A) : res A :=
  match xs with
  | x :: _ => Ok x
  | [] => Raise IndexError
  end.

(** [needle in s] for texts: [needle] occurs in [s]. *)
Fixpoint occurs (needle s : string) : bool :=
  startswith needle s
  || match s with
     | EmptyString => false
     | String _ r => occurs needle r
     end.

(** [s.replace(old, EmptyString)] for a non-empty [old]: the occurrences of
    [old] are taken out, leftmost first, without overlap; [skip] counts the
    characters of the current occurrence still to drop.  (With an empty
    [old] the text is returned as it is.) *)
Fixpoint remove_from (old : string) (skip : nat) (s : string) : string :=
  match s with
  | EmptyString => EmptyString
  | String c r =>
      match skip with
      | S k => remove_from old k r
      | O =>
          if startswith old s then remove_from old (String.length old - 1) r
          else String c (remove_from old 0 r)
      end
  end.

Definition remove_all (old s : string) : string :=
  match old with
  | EmptyString => s
  | _ => remove_from old 0 s
  end.

(** [s[:k]] for any integer [k]: a negative [k] counts from the end. *)
Definition slice_to (k : Z) (s : string) : string :=
  if k <? 0 then take_string (Z.to_nat (Z.of_nat (String.length s) + k)) s
  else take_string (Z.to_nat k) s.

Definition is_digit (c : ascii) : bool :=
  let n := nat_of_ascii c in (48 <=? n)%nat && (n <=? 57)%nat.

(** The digits of an [int] literal: single underscores may separate digits.
    [prev] tells whether the character before was a digit. *)
Fixpoint int_digits (acc : Z) (prev : bool) (s : string) : option Z :=
  match s with
  | EmptyString => if prev then Some acc else None
  | String c r =>
      if is_digit c then int_digits (10 * acc + (Z.of_nat (nat_of_ascii c) - 48)) true r
      else if Ascii.eqb c "_" && prev then int_digits acc false r
      else None
  end.

(** [int(s)] for a text: white space around is dropped, a sign may lead.
    The digits are the ASCII digits. *)
Definition py_int (s : string) : res Z :=
  let body := strip s in
  let parsed :=
    match body with
    | String "+" r => int_digits 0 false r
    | String "-" r => Z.opp <$> int_digits 0 false r
    | _ => int_digits 0 false body
    end in
  match parsed with
  | Some n => Ok n
  | None => Raise ValueError
  end.

End Py.

Import Py.

Notation "'try!' x ':=' m 'in' k" := (Py.bind m (fun x => k))
(at level 10, x name, m at level 100, k at level 200).

(* ===================================================================== *)
(** ** modules/llm_processor.py *)
(* ===================================================================== *)

Module LLMProcessor.

(** The prompt of [extract_meeting_details], an f-string with one hole;
    every line of the template is indented by eight spaces. *)
Definition meeting_prompt (email_content : string) : string :=
  String.concat nl
    [ EmptyString;
      "        Email: " +:+ email_content;
      "        ";
      "        Extract the following meeting details from this email:";
      "        - Date (YYYY-MM-DD format)";
      "        - Time (HH:MM format, specify timezone if mentioned)";
      "        - Duration (in minutes)";
      "        - Title or Subject";
      "        - Participants (comma-separated list)";
      "        - Location (physical or virtual)";
      "        ";
      "        Format your response as:";
      "        Date: [date]";
      "        Time: [time]";
      "        Duration: [duration]";
      "        Title: [title]";
      "        Participants: [participants]";
      "        Location: [location]";
      "        " ].

(** One turn of the loop over the lines:
    [if ':' in line: key, value = line.split(':', 1); d[key.strip()] = value.strip()] *)
Definition parse_line (meeting_details : gmap string string) (line : string)
  : res (gmap string string) :=
  if contains ":" line then
    try! kv := unpack2 (split1 ":" line) in
    Ok (<[strip (fst kv) := strip (snd kv)]> meeting_details)
  else Ok meeting_details.

Fixpoint parse_lines (meeting_details : gmap string string) (lines : list string)
  : res (gmap string string) :=
  match lines with
  | [] => Ok meeting_details
  | line :: rest =>
      try! d := parse_line meeting_details line in
      parse_lines d rest
  end.

(** The parsing half of [extract_meeting_details], from the generated text. *)
Definition parse_meeting_details (result : string) : res (gmap string string) :=
  parse_lines ∅ (split "010" (strip result)).

(** [extract_meeting_details]; [generate_text] is the model capability. *)
Definition extract_meeting_details (generate_text : string -> string)
    (email_content : string) : res (gmap string string) :=
  parse_meeting_details (generate_text (meeting_prompt email_content)).

(** [generate_text]; [pipe] gives the ['generated_text'] of the first result
    of the pipeline for a prompt. *)
Definition generate_text (pipe : string -> string) (prompt : string) : string :=
  strip (remove_all prompt (pipe prompt)).

(** The prompt of [classify_email]. *)
Definition classify_prompt (email_content : string) : string :=
  String.concat nl
    [ EmptyString;
      "        Email: " +:+ email_content;
      "        ";
      "        Classify this email into one of the following categories:";
      "        1. Meeting Request - Requires scheduling";
      "        2. Question - Requires information";
      "        3. Task - Requires an action";
      "        4. FYI - Just informational";
      "        ";
      "        Category and explanation:";
      "        " ].

(** [classify_email] *)
Definition classify_email (pipe : string -> string) (email_content : string)
  : string :=
  generate_text pipe (classify_prompt email_content).

(** The prompt of [summarize_email]. *)
Definition summarize_prompt (email_content : string) : string :=
  String.concat nl
    [ EmptyString;
      "        Email: " +:+ email_content;
      "        ";
      "        Provide a concise summary of this email in 1-2 sentences:";
      "        " ].

(** [summarize_email] *)
Definition summarize_email (pipe : string -> string) (email_content : string)
  : string :=
  generate_text pipe (summarize_prompt email_content).

(** [context_section] of [generate_response]: an absent or empty context
    counts as none. *)
Definition context_section (context : option string) : string :=
  match context with
  | Some (String _ _ as c) => "Additional context: " +:+ c
  | _ => "No additional context provided."
  end.

(** The prompt of [generate_response]. *)
Definition response_prompt (email_content sender : string)
    (context : option string) : string :=
  String.concat nl
    [ EmptyString;
      "        Email from " +:+ sender +:+ ": " +:+ email_content;
      "        ";
      "        " +:+ context_section context;
      "        ";
      "        Draft a professional and concise response addressing their questions or requests:";
      "        " ].

(** [generate_response] *)
Definition generate_response (pipe : string -> string)
    (email_content sender : string) (context : option string) : string :=
  generate_text pipe (response_prompt email_content sender context).

(** The prompt of [generate_search_query]. *)
Definition search_query_prompt (email_content : string) : string :=
  String.concat nl
    [ EmptyString;
      "        Email: " +:+ email_content;
      "        ";
      "        Generate a concise search query to find information that would help respond to this email:";
      "        " ].

(** [generate_search_query] *)
Definition generate_search_query (pipe : string -> string)
    (email_content : string) : string :=
  generate_text pipe (search_query_prompt email_content).

End LLMProcessor.

(* ===================================================================== *)
(** ** modules/memory_manager.py *)
(* ===================================================================== *)

Module MemoryManager.

(** Rows of the three tables.  A [DateTime] column holds a naive time stamp,
    kept here as a number of seconds. *)
Module Email.
Record t : Type := mk
  { id : string; sender : string; recipient : string; subject : string;
    body : string; timestamp : Z; thread_id : string; has_attachment : bool }.
End Email.

Module Attachment.
Record t : Type := mk
  { id : string; email_id : string; filename : string;
    content_type : string; size : Z; data : string }.
End Attachment.

Module Response.
Record t : Type := mk
  { id : string; email_id : string; content : string;
    timestamp : Z; sent : bool }.
End Response.

(** The dictionaries handed to the [save_*] functions.  A key read with
    [d[k]] is a field; a key read with [d.get(k, default)] is optional. *)
Record AttachmentData : Type := mkAttachmentData
  { ad_id : string; ad_email_id : string; ad_filename : string;
    ad_content_type : string; ad_size : Z; ad_data : string }.

Record EmailData : Type := mkEmailData
  { ed_id : string; ed_sender : string; ed_recipient : string;
    ed_subject : string; ed_body : string; ed_timestamp : option Z;
    ed_thread_id : string; ed_has_attachment : option bool;
    ed_attachments : list AttachmentData }.

Record ResponseData : Type := mkResponseData
  { rd_id : string; rd_email_id : string; rd_content : string;
    rd_timestamp : option Z; rd_sent : option bool }.

(** The database: each table in insertion (rowid) order. *)
Record db : Type := mkDb
  { emails : list Email.t;
    attachments : list Attachment.t;
    responses : list Response.t }.

Definition init_db : db := mkDb [] [] [].

(** [session.add(row); session.commit()] on a fresh session: the unit of work
    flushes one INSERT.  The [id] column is the primary key, so the engine
    rejects the statement when a row with that key is stored already; the
    transaction is rolled back and the table is left as it was.  (The foreign
    keys are declared only: SQLite does not check them unless asked to.) *)
Definition insert_row {A} (pk : A -> string) (table : list A) (row : A)
  : res (list A) :=
  if bool_decide (pk row ∈ pk <$> table) then Raise IntegrityError
  else Ok (table ++ [row])%list.

(** [get_email_by_id]: [.filter(Email.id == email_id).first()] *)
Definition get_email_by_id (d : db) (email_id : string) : option Email.t :=
  head (filter (fun e => Email.id e = email_id) (emails d)).

Definition timestamp_le (a b : Email.t) : Prop :=
  Email.timestamp a <= Email.timestamp b.

Global Instance timestamp_le_dec a b : Decision (timestamp_le a b).
Proof. unfold timestamp_le. apply _. Defined.

(** [ORDER BY emails.timestamp] (ascending): the selected rows, sorted. *)
Definition order_by_timestamp (rows : list Email.t) : list Email.t :=
  merge_sort timestamp_le rows.

(** [get_emails_by_thread]:
    [.filter(Email.thread_id == thread_id).order_by(Email.timestamp).all()] *)
Definition get_emails_by_thread (d : db) (thread_id : string) : list Email.t :=
  order_by_timestamp
    (filter (fun e => Email.thread_id e = thread_id) (emails d)).

(** [save_email]; [now] is the value of [datetime.now()]. *)
Definition save_email (now : Z) (d : db) (email_data : EmailData)
  : res (Email.t * db) :=
  let email :=
    Email.mk (ed_id email_data) (ed_sender email_data)
             (ed_recipient email_data) (ed_subject email_data)
             (ed_body email_data)
             (default now (ed_timestamp email_data))
             (ed_thread_id email_data)
             (default false (ed_has_attachment email_data)) in
  try! table := insert_row Email.id (emails d) email in
  Ok (email, mkDb table (attachments d) (responses d)).

(** [save_attachment] *)
Definition save_attachment (d : db) (attachment_data : AttachmentData)
  : res (Attachment.t * db) :=
  let attachment :=
    Attachment.mk (ad_id attachment_data) (ad_email_id attachment_data)
                  (ad_filename attachment_data)
                  (ad_content_type attachment_data)
                  (ad_size attachment_data) (ad_data attachment_data) in
  try! table := insert_row Attachment.id (attachments d) attachment in
  Ok (attachment, mkDb (emails d) table (responses d)).

(** [save_response] *)
Definition save_response (now : Z) (d : db) (response_data : ResponseData)
  : res (Response.t * db) :=
  let response :=
    Response.mk (rd_id response_data) (rd_email_id response_data)
                (rd_content response_data)
                (default now (rd_timestamp response_data))
                (default false (rd_sent response_data)) in
  try! table := insert_row Response.id (responses d) response in
  Ok (response, mkDb (emails d) (attachments d) table).

Definition timestamp_ge (a b : Email.t) : Prop :=
  Email.timestamp b <= Email.timestamp a.

Global Instance timestamp_ge_dec a b : Decision (timestamp_ge a b).
Proof. unfold timestamp_ge. apply _. Defined.

(** [get_all_emails]:
    [.order_by(Email.timestamp.desc()).limit(limit).all()]; the engine takes
    a negative LIMIT as no limit. *)
Definition get_all_emails (d : db) (limit : Z) : list Email.t :=
  let rows := merge_sort timestamp_ge (emails d) in
  if limit <? 0 then rows else take (Z.to_nat limit) rows.

End MemoryManager.

(* ===================================================================== *)
(** ** modules/email_integration.py *)
(* ===================================================================== *)

Module EmailIntegration.
Import MemoryManager.

(** *** [re.sub('<[^<]+?>', '', html)] *)

(** The lazy tail [[^<]*?>] of the pattern: the number of characters up to
    and including the first [>], provided no [<] comes before it. *)
Fixpoint lazy_close (s : string) : option nat :=
  match s with
  | EmptyString => None
  | String c r =>
      if Ascii.eqb c ">" then Some 1%nat
      else if Ascii.eqb c "<" then None
      else S <$> lazy_close r
  end.

(** What a match that starts at a [<] consumes after that [<]: one character
    that is not [<] (it may be [>]), then the lazy tail. *)
Definition tag_len (rest : string) : option nat :=
  match rest with
  | EmptyString => None
  | String c1 r => if Ascii.eqb c1 "<" then None else S <$> lazy_close r
  end.

(** Left-to-right replacement of the non-overlapping matches by the empty
    string; [skip] counts the characters of the current match still to drop. *)
Fixpoint sub_tags (skip : nat) (s : string) : string :=
  match s with
  | EmptyString => EmptyString
  | String c r =>
      match skip with
      | S k => sub_tags k r
      | O =>
          if Ascii.eqb c "<" then
            match tag_len r with
            | Some n => sub_tags n r
            | None => String c (sub_tags 0 r)
            end
          else String c (sub_tags 0 r)
      end
  end.

Definition strip_tags (html : string) : string := sub_tags 0 html.

(** *** The provider's message structure *)

Record MessagePartBody : Type := mkBody
  { data : option string; attachmentId : option string }.

(** A message part: a dictionary whose keys may be absent. *)
Inductive MessagePart : Type :=
| mkPart (mimeType : option string) (filename : option string)
         (body : option MessagePartBody) (parts : option (list MessagePart)).

Definition mimeType (p : MessagePart) : option string :=
  match p with mkPart m _ _ _ => m end.
Definition filename (p : MessagePart) : option string :=
  match p with mkPart _ f _ _ => f end.
Definition body (p : MessagePart) : option MessagePartBody :=
  match p with mkPart _ _ b _ => b end.
Definition parts (p : MessagePart) : option (list MessagePart) :=
  match p with mkPart _ _ _ ps => ps end.

(** [d[k]]: the key must be there. *)
Definition item {A} (o : option A) : res A :=
  match o with Some a => Ok a | None => Raise KeyError end.

Definition no_content : string := "No content found".

(** [part['mimeType'] == mime and part['body'].get('data')]: [and] reads the
    body only when the type matches. *)
Definition typed_data (mime : string) (part : MessagePart) : res (option string) :=
  try! mt := item (mimeType part) in
  if String.eqb mt mime then
    try! b := item (body part) in
    Ok (if truthy_opt (data b) then data b else None)
  else Ok None.

Section BodyLoop.

(** [base64.urlsafe_b64decode(_).decode('utf-8')] *)
Variable decode : string -> res string.

(** [self._get_email_body], as called on a part that holds parts. *)
Variable extract : MessagePart -> res string.

(** The loop [for part in payload['parts']] of [_get_email_body], up to the
    final [return "No content found"]. *)
Fixpoint scan_parts (l : list MessagePart) : res string :=
  match l with
  | [] => Ok no_content
  | part :: rest =>
      try! plain := typed_data "text/plain" part in
      match plain with
      | Some d => decode d
      | None =>
          try! html := typed_data "text/html" part in
          match html with
          | Some d => rmap strip_tags (decode d)
          | None =>
              match parts part with
              | Some _ =>
                  try! found := extract part in
                  if truthy found then Ok found else scan_parts rest
              | None => scan_parts rest
              end
          end
      end
  end.

End BodyLoop.

(** [_get_email_body] *)
Fixpoint _get_email_body (decode : string -> res string) (payload : MessagePart)
  : res string :=
  match payload with
  | mkPart _ _ b ps =>
      match b ≫= data with
      | Some (String _ _ as d) => decode d
      | _ =>
          match ps with
          | Some l => scan_parts decode (_get_email_body decode) l
          | None => Ok no_content
          end
      end
  end.

(** *** Outgoing messages: [email.mime] *)

(** A message under construction: its header fields in order, and the
    attached text parts as (text, subtype). *)
Record MimeMessage : Type := mkMime
  { headers : list (string * string);
    attached : list (string * string) }.

(** [MIMEMultipart()] *)
Definition MIMEMultipart : MimeMessage :=
  mkMime [("Content-Type", "multipart/mixed"); ("MIME-Version", "1.0")] [].

(** [message[name] = value]: the field is appended; a field of the same name
    that is already there stays. *)
Definition set_header (m : MimeMessage) (name value : string) : MimeMessage :=
  mkMime (headers m ++ [(name, value)])%list (attached m).

Definition lower (c : ascii) : ascii :=
  let n := nat_of_ascii c in
  if (65 <=? n)%nat && (n <=? 90)%nat then ascii_of_nat (n + 32) else c.

Fixpoint lower_string (s : string) : string :=
  match s with
  | EmptyString => EmptyString
  | String c r => String (lower c) (lower_string r)
  end.

(** [message.get_all(name)]: field names compare without regard to case. *)
Definition get_all (m : MimeMessage) (name : string) : list string :=
  snd <$> filter (fun h => lower_string (fst h) = lower_string name) (headers m).

(** [message[name]]: the first field of that name. *)
Definition get_header (m : MimeMessage) (name : string) : option string :=
  head (get_all m name).

(** [message.attach(MIMEText(text, subtype))] *)
Definition attach (m : MimeMessage) (text subtype : string) : MimeMessage :=
  mkMime (headers m) (attached m ++ [(text, subtype)])%list.

(** *** The provider *)

Record GmailService : Type := mkGmail
  { (** [messages().list(userId='me', maxResults=n).execute().get('messages', [])],
        as the list of the ids *)
    messages_list : Z -> res (list string);
    (** [messages().get(.., format='metadata', ..).execute()['payload']['headers']],
        as (name, value) pairs *)
    messages_get_metadata : string -> res (list (string * string));
    (** [messages().send(userId='me', body={'raw': ..}).execute()['id']]; the
        raw form is the serialisation of the message built *)
    messages_send : MimeMessage -> res string }.

(** [{h['name']: h['value'] for h in ...}]: a later field replaces an
    earlier one of the same name. *)
Definition headers_dict (hs : list (string * string)) : gmap string string :=
  foldl (fun d h => <[fst h := snd h]> d) ∅ hs.

(** The reply block of [send_email] (the body of [if reply_to_message_id:]). *)
Definition add_reply_headers (svc : GmailService) (message : MimeMessage)
    (subject reply_to_message_id : string) : res MimeMessage :=
  try! original := messages_get_metadata svc reply_to_message_id in
  let hd := headers_dict original in
  let message :=
    match hd !! "Message-ID" with
    | Some mid => set_header message "In-Reply-To" mid
    | None => message
    end in
  let references := default EmptyString (hd !! "References") in
  let references :=
    match hd !! "Message-ID" with
    | Some mid =>
        (if truthy references then references +:+ " " else references) +:+ mid
    | None => references
    end in
  let message :=
    if truthy references then set_header message "References" references
    else message in
  if negb (startswith "Re:" subject)
     && truthy (strip (default EmptyString (hd !! "Subject")))
  then
    try! original_subject := item (hd !! "Subject") in
    Ok (set_header message "subject" ("Re: " +:+ original_subject))
  else Ok message.

(** The message that [send_email] constructs, up to its encoding. *)
Definition build_message (svc : GmailService) (to subject text : string)
    (reply_to_message_id : option string) : res MimeMessage :=
  let message := MIMEMultipart in
  let message := set_header message "to" to in
  let message := set_header message "subject" subject in
  try! message :=
    match reply_to_message_id with
    | Some (String _ _ as orig) => add_reply_headers svc message subject orig
    | _ => Ok message
    end in
  Ok (attach message text "plain").

(** [send_email]: everything happens under [try]; any exception gives [False]. *)
Definition send_email (svc : GmailService) (to subject text : string)
    (reply_to_message_id : option string) : bool :=
  catch (try! message := build_message svc to subject text reply_to_message_id in
         try! sent_id := messages_send svc message in
         Ok true)
        false.

(** [for attachment in email_data['attachments']: save_attachment(attachment)] *)
Fixpoint save_attachments (d : db) (l : list AttachmentData) : res db :=
  match l with
  | [] => Ok d
  | attachment :: rest =>
      try! r := save_attachment d attachment in
      save_attachments (snd r) rest
  end.

(** The loop of [get_emails] over the listed messages.  [_parse_email]
    depends on the provider's answer for the id; its result is taken as
    given: [None] after a failure, otherwise the dictionary it built. *)
Fixpoint ingest (_parse_email : string -> option EmailData) (now : Z)
    (messages : list string) (emails : list EmailData) (d : db)
  : res (list EmailData * db) :=
  match messages with
  | [] => Ok (emails, d)
  | message_id :: rest =>
      match _parse_email message_id with
      | Some email_data =>
          try! saved := save_email now d email_data in
          try! d' := save_attachments (snd saved) (ed_attachments email_data) in
          ingest _parse_email now rest (emails ++ [email_data])%list d'
      | None => ingest _parse_email now rest emails d
      end
  end.

(** [get_emails]: not under [try]; an exception reaches the caller. *)
Definition get_emails (svc : GmailService)
    (_parse_email : string -> option EmailData) (now : Z)
    (max_results : Z) (d : db) : res (list EmailData * db) :=
  try! messages := messages_list svc max_results in
  ingest _parse_email now messages [] d.

(** *** Reading a message: [_parse_email] *)

(** A message as [messages().get(.., format='full')] returns it;
    [payload_headers] is [message['payload']['headers']], as (name, value)
    pairs. *)
Record Message : Type := mkMessage
  { payload : option MessagePart;
    payload_headers : option (list (string * string));
    threadId : option string }.

(** The read calls of the service. *)
Record GmailReader : Type := mkReader
  { (** [messages().get(userId='me', id=.., format='full').execute()] *)
    messages_get : string -> res Message;
    (** [messages().attachments().get(.., messageId=.., id=..).execute().get('data')] *)
    attachments_get : string -> string -> res (option string) }.

(** What [_parse_email] takes from its surroundings: the decoder of body
    data, [datetime.strptime(_, '%a, %d %b %Y %H:%M:%S')] in seconds,
    [datetime.now()], and the text of the [k]-th [uuid.uuid4()] drawn. *)
Record ParseEnv : Type := mkParseEnv
  { env_decode : string -> res string;
    env_strptime : string -> res Z;
    env_now : Z;
    env_uuid4 : nat -> string }.

(** [next((h['value'] for h in headers if h['name'] == name), fallback)] *)
Fixpoint header_value (name : string) (hs : list (string * string))
  : option string :=
  match hs with
  | [] => None
  | h :: rest => if String.eqb (fst h) name then Some (snd h) else header_value name rest
  end.

(** [part.get('filename') and part.get('body') and part['body'].get('attachmentId')],
    as the attachment id when the condition holds. *)
Definition attachment_ref (part : MessagePart) : option string :=
  if truthy_opt (filename part) then
    match body part ≫= attachmentId with
    | Some (String _ _ as a) => Some a
    | _ => None
    end
  else None.

(** The loop over [message['payload']['parts']] that collects the attachments. *)
Fixpoint collect_attachments (reader : GmailReader) (uuid4 : nat -> string)
    (message_id : string) (l : list MessagePart)
    (attachments : list AttachmentData) : res (list AttachmentData) :=
  match l with
  | [] => Ok attachments
  | part :: rest =>
      match attachment_ref part with
      | Some attachment_id =>
          try! attachment := attachments_get reader message_id attachment_id in
          try! name := item (filename part) in
          try! content_type := item (mimeType part) in
          let data := default EmptyString attachment in
          collect_attachments reader uuid4 message_id rest
            (attachments
               ++ [mkAttachmentData (uuid4 (length attachments)) message_id name
                     content_type (Z.of_nat (String.length data)) data])
      | None => collect_attachments reader uuid4 message_id rest attachments
      end
  end.

(** The [try] block of [_parse_email]. *)
Definition parse_email_body (env : ParseEnv) (reader : GmailReader)
    (message_id : string) : res EmailData :=
  try! message := messages_get reader message_id in
  try! pl := item (payload message) in
  try! hs := item (payload_headers message) in
  let subject := default "No Subject" (header_value "Subject" hs) in
  let sender := default "Unknown Sender" (header_value "From" hs) in
  let recipient := default "Unknown Recipient" (header_value "To" hs) in
  let timestamp :=
    match header_value "Date" hs with
    | Some (String _ _ as date_str) =>
        catch (env_strptime env (take_string 25 date_str)) (env_now env)
    | _ => env_now env
    end in
  try! text := _get_email_body (env_decode env) pl in
  try! attachments :=
    match parts pl with
    | Some l => collect_attachments reader (env_uuid4 env) message_id l []
    | None => Ok []
    end in
  Ok (mkEmailData message_id sender recipient subject text (Some timestamp)
        (default message_id (threadId message))
        (Some (match attachments with [] => false | _ => true end))
        attachments).

(** [_parse_email]: any exception gives [None]. *)
Definition _parse_email (env : ParseEnv) (reader : GmailReader)
    (message_id : string) : option EmailData :=
  catch (rmap Some (parse_email_body env reader message_id)) None.

End EmailIntegration.

(* ===================================================================== *)
(** ** modules/search_integration.py *)
(* ===================================================================== *)

Module SearchIntegration.

(** The decoded body of a provider answer: a dictionary that may hold
    ['items'], each item a dictionary of text fields. *)
Record SearchData : Type := mkData
  { items : option (list (gmap string string)) }.

(** What [requests.get] returns; [json] is the outcome of [response.json()]. *)
Record Response : Type := mkResponse
  { status_code : Z; text : string; json : res SearchData }.

Record Params : Type := mkParams
  { key : option string; cx : option string; q : string; num : Z }.

(** The object: its configuration, and the HTTP call it issues. *)
Record t : Type := mk
  { api_key : option string;
    search_engine_id : option string;
    requests_get : string -> Params -> res Response }.

Definition url : string := "https://www.googleapis.com/customsearch/v1".

(** The body of [for item in data['items']]. *)
Definition result_of (item : gmap string string) : gmap string string :=
  <["snippet" := default EmptyString (item !! "snippet")]>
    (<["link" := default EmptyString (item !! "link")]>
       (<["title" := default EmptyString (item !! "title")]> ∅)).

Fixpoint collect (search_results : list (gmap string string))
    (l : list (gmap string string)) : list (gmap string string) :=
  match l with
  | [] => search_results
  | item :: rest => collect (search_results ++ [result_of item])%list rest
  end.

(** The [try] block of [search]. *)
Definition search_body (self : t) (query : string) (num_results : Z)
  : res (list (gmap string string)) :=
  let num_results := Z.min num_results 10 in
  let params := mkParams (api_key self) (search_engine_id self) query num_results in
  try! response := requests_get self url params in
  if negb (status_code response =? 200) then Ok []
  else
    try! data := json response in
    match items data with
    | Some l => Ok (collect [] l)
    | None => Ok []
    end.

(** [search] *)
Definition search (self : t) (query : string) (num_results : Z)
  : list (gmap string string) :=
  catch (search_body self query num_results) [].

(** The three lines appended for the [i]-th result. *)
Definition format_result (i : nat) (result : gmap string string) : res string :=
  try! title := EmailIntegration.item (result !! "title") in
  try! link := EmailIntegration.item (result !! "link") in
  try! snippet := EmailIntegration.item (result !! "snippet") in
  Ok (pretty i +:+ ". " +:+ title +:+ nl
      +:+ "   URL: " +:+ link +:+ nl
      +:+ "   " +:+ snippet +:+ nl +:+ nl).

Fixpoint format_loop (i : nat) (formatted_text : string)
    (results : list (gmap string string)) : res string :=
  match results with
  | [] => Ok formatted_text
  | result :: rest =>
      try! block := format_result i result in
      format_loop (S i) (formatted_text +:+ block) rest
  end.

(** [format_results_for_llm] *)
Definition format_results_for_llm (results : list (gmap string string))
  : res string :=
  match results with
  | [] => Ok "No search results found."
  | _ => format_loop 1 ("Search Results:" +:+ nl +:+ nl) results
  end.

(** [search_and_format] *)
Definition search_and_format (self : t) (query : string) (num_results : Z)
  : res string :=
  format_results_for_llm (search self query num_results).

(** [enhance_email_with_search]: without a query of its own, the first ten
    words of the email are the query. *)
Definition enhance_email_with_search (self : t) (email_content : string)
    (search_query : option string) : res string :=
  let query :=
    match search_query with
    | Some (String _ _ as given) => given
    | _ => join " " (take 10 (split_ws email_content))
    end in
  format_results_for_llm (search self query 5).

End SearchIntegration.

(* ===================================================================== *)
(** ** modules/calendar_integration.py *)
(* ===================================================================== *)

Module CalendarIntegration.

(** *** [datetime] values *)

(** A [datetime.datetime] with whole seconds.  [tzinfo] is [None] for a
    naive value, otherwise the UTC offset in seconds. *)
Record datetime : Type := mkDT
  { year : Z; month : Z; day : Z; hour : Z; minute : Z; second : Z;
    tzinfo : option Z }.

Definition is_leap (y : Z) : bool :=
  ((y mod 4 =? 0) && negb (y mod 100 =? 0)) || (y mod 400 =? 0).

Definition days_in_month (y m : Z) : Z :=
  if m =? 2 then (if is_leap y then 29 else 28)
  else if (m =? 4) || (m =? 6) || (m =? 9) || (m =? 11) then 30
  else 31.

Definition valid_date (y m d : Z) : bool :=
  (1 <=? y) && (y <=? 9999) && (1 <=? m) && (m <=? 12)
  && (1 <=? d) && (d <=? days_in_month y m).

(** Day number of a civil date in the proleptic Gregorian calendar. *)
Definition days_from_civil (y m d : Z) : Z :=
  let y' := if m <=? 2 then y - 1 else y in
  let era := y' / 400 in
  let yoe := y' - era * 400 in
  let mp := (m + 9) mod 12 in
  let doy := (153 * mp + 2) / 5 + d - 1 in
  let doe := yoe * 365 + yoe / 4 - yoe / 100 + doy in
  era * 146097 + doe.

(** Seconds on the wall clock since the calendar's origin. *)
Definition wall_seconds (t : datetime) : Z :=
  days_from_civil (year t) (month t) (day t) * 86400
  + hour t * 3600 + minute t * 60 + second t.

(** [(a - b).total_seconds()]: two naive values compare wall clocks, two
    aware values compare instants, a naive and an aware value cannot be
    subtracted. *)
Definition sub_seconds (a b : datetime) : res Z :=
  match tzinfo a, tzinfo b with
  | None, None => Ok (wall_seconds a - wall_seconds b)
  | Some oa, Some ob => Ok ((wall_seconds a - oa) - (wall_seconds b - ob))
  | _, _ => Raise TypeError
  end.

(** *** Reading and printing *)

Definition digit (c : ascii) : option Z :=
  let n := nat_of_ascii c in
  if (48 <=? n)%nat && (n <=? 57)%nat then Some (Z.of_nat n - 48) else None.

(** A number written with exactly the given digits. *)
Fixpoint number (acc : Z) (s : string) : option Z :=
  match s with
  | EmptyString => Some acc
  | String c r => d ← digit c; number (10 * acc + d) r
  end.

Definition fixed_number (width : nat) (s : string) : option Z :=
  if (String.length s =? width)%nat then number 0 s else None.

(** The month and day directives of [strptime]: [%m] is one of
    [1[0-2]|0[1-9]|[1-9]], [%d] one of [3[01]|[12]\d|0[1-9]|[1-9]| [1-9]]. *)
Definition directive_m (s : string) : option Z :=
  n ← number 0 s;
  if ((String.length s =? 1)%nat || (String.length s =? 2)%nat)
     && (1 <=? n) && (n <=? 12) then Some n else None.

Definition directive_d (s : string) : option Z :=
  match s with
  | String " " (String c EmptyString) =>
      n ← digit c; if 1 <=? n then Some n else None
  | _ =>
      n ← number 0 s;
      if ((String.length s =? 1)%nat || (String.length s =? 2)%nat)
         && (1 <=? n) && (n <=? 31) then Some n else None
  end.

Definition value_error {A} (o : option A) : res A :=
  match o with Some a => Ok a | None => Raise ValueError end.

(** [datetime.datetime.strptime(date_str, '%Y-%m-%d')] *)
Definition strptime_ymd (date_str : string) : res datetime :=
  match split "-" date_str with
  | [ys; ms; ds] =>
      try! y := value_error (fixed_number 4 ys) in
      try! m := value_error (directive_m ms) in
      try! d := value_error (directive_d ds) in
      if valid_date y m d then Ok (mkDT y m d 0 0 0 None)
      else Raise ValueError
  | _ => Raise ValueError
  end.

(** [HH:MM] or [HH:MM:SS] read as (hours, minutes, seconds). *)
Definition read_clock (s : string) : option (Z * Z * Z) :=
  match split ":" s with
  | [hs; ms; ss] =>
      h ← fixed_number 2 hs; m ← fixed_number 2 ms; x ← fixed_number 2 ss;
      if (h <? 24) && (m <? 60) && (x <? 60) then Some (h, m, x) else None
  | [hs; ms] =>
      h ← fixed_number 2 hs; m ← fixed_number 2 ms;
      if (h <? 24) && (m <? 60) then Some (h, m, 0) else None
  | _ => None
  end.

(** The offset suffix: nothing, or a sign and [HH:MM]. *)
Definition read_offset (s : string) : option (option Z) :=
  match s with
  | EmptyString => Some None
  | String sign r =>
      '(h, m, _) ← (if (String.length r =? 5)%nat then read_clock r else None);
      if Ascii.eqb sign "+" then Some (Some (h * 3600 + m * 60))
      else if Ascii.eqb sign "-" then Some (Some (- (h * 3600 + m * 60)))
      else None
  end.

(** [datetime.datetime.fromisoformat] on the whole-second forms
    [YYYY-MM-DD?HH:MM:SS] and [YYYY-MM-DD?HH:MM:SS±HH:MM] (any one
    character may separate date and time); other texts are refused. *)
Definition fromisoformat (s : string) : res datetime :=
  value_error
    (match split "-" (take_string 10 s) with
     | [ys; ms; ds] =>
         y ← fixed_number 4 ys; m ← fixed_number 2 ms; d ← fixed_number 2 ds;
         if valid_date y m d && (19 <=? String.length s)%nat then
           '(h, mi, x) ← read_clock (take_string 8 (drop_string 11 s));
           tz ← read_offset (drop_string 19 s);
           Some (mkDT y m d h mi x tz)
         else None
     | _ => None
     end).

(** [s.replace('Z', '+00:00')] *)
Fixpoint replace_Z (s : string) : string :=
  match s with
  | EmptyString => EmptyString
  | String c r =>
      if Ascii.eqb c "Z" then "+00:00" +:+ replace_Z r
      else String c (replace_Z r)
  end.

(** A non-negative number in at least [width] digits, zero padded. *)
Fixpoint zeros (n : nat) : string :=
  match n with O => EmptyString | S k => String "0" (zeros k) end.

Definition padded (width : nat) (n : Z) : string :=
  let s := pretty (Z.to_N n) in
  zeros (width - String.length s) +:+ s.

(** [t.strftime('%H:%M')] *)
Definition strftime_HM (t : datetime) : string :=
  padded 2 (hour t) +:+ ":" +:+ padded 2 (minute t).

(** [t.isoformat()] of a naive value. *)
Definition isoformat (t : datetime) : string :=
  padded 4 (year t) +:+ "-" +:+ padded 2 (month t) +:+ "-" +:+ padded 2 (day t)
  +:+ "T" +:+ padded 2 (hour t) +:+ ":" +:+ padded 2 (minute t)
  +:+ ":" +:+ padded 2 (second t).

(** [datetime.datetime.combine(d.date(), datetime.time(h, 0))] *)
Definition combine (d : datetime) (h : Z) : datetime :=
  mkDT (year d) (month d) (day d) h 0 0 None.

(** *** The provider *)

(** An event resource: its ['start'] and ['end'] dictionaries. *)
Record Event : Type := mkEvent
  { ev_start : option (gmap string string);
    ev_end : option (gmap string string) }.

Record CalendarService : Type := mkCalendar
  { (** [events().list(calendarId='primary', timeMin=.., timeMax=..,
        singleEvents=True, orderBy='startTime').execute().get('items', [])] *)
    events_list : string -> string -> res (list Event) }.

Record Slot : Type := mkSlot { slot_start : string; slot_end : string }.

(** *** [get_available_slots] *)

(** The loop over the events; it yields the final [current_time] and the
    slots found. *)
Fixpoint walk_events (duration_minutes : Z) (events : list Event)
    (current_time : datetime) (free_slots : list Slot)
  : res (datetime * list Slot) :=
  match events with
  | [] => Ok (current_time, free_slots)
  | event :: rest =>
      try! st := EmailIntegration.item (ev_start event) in
      match st !! "dateTime" with
      | Some (String _ _ as start) =>
          try! start_time := fromisoformat (replace_Z start) in
          try! gap := sub_seconds start_time current_time in
          let free_slots :=
            if 60 * duration_minutes <=? gap
            then (free_slots
                    ++ [mkSlot (strftime_HM current_time) (strftime_HM start_time)])%list
            else free_slots in
          try! en := EmailIntegration.item (ev_end event) in
          match en !! "dateTime" with
          | Some (String _ _ as e) =>
              try! end_time := fromisoformat (replace_Z e) in
              walk_events duration_minutes rest end_time free_slots
          | _ => walk_events duration_minutes rest current_time free_slots
          end
      | _ => walk_events duration_minutes rest current_time free_slots
      end
  end.

(** The [try] block of [get_available_slots]. *)
Definition available_slots_body (svc : CalendarService) (date_str : string)
    (duration_minutes : Z) : res (list Slot) :=
  try! date_obj := strptime_ymd date_str in
  let time_min := combine date_obj 9 in
  let time_max := combine date_obj 17 in
  try! events :=
    events_list svc (isoformat time_min +:+ "Z") (isoformat time_max +:+ "Z") in
  try! walked := walk_events duration_minutes events time_min [] in
  let current_time := fst walked in
  let free_slots := snd walked in
  try! gap := sub_seconds time_max current_time in
  Ok (if 60 * duration_minutes <=? gap
      then (free_slots
              ++ [mkSlot (strftime_HM current_time) (strftime_HM time_max)])%list
      else free_slots).

(** [get_available_slots] *)
Definition get_available_slots (svc : CalendarService) (date_str : string)
    (duration_minutes : Z) : list Slot :=
  catch (available_slots_body svc date_str duration_minutes) [].

(** [suggest_meeting_times] *)
Definition suggest_meeting_times (svc : CalendarService) (date_str : string)
    (duration_minutes : Z) (num_suggestions : nat) : list string :=
  (fun slot => date_str +:+ " at " +:+ slot_start slot)
    <$> take num_suggestions (get_available_slots svc date_str duration_minutes).

(** *** [create_event]: its helpers *)

(** [_parse_attendees]: the loop over [participants_str.split(',')]. *)
Fixpoint attendees_loop (tokens : list string)
    (attendees : list (gmap string string)) : list (gmap string string) :=
  match tokens with
  | [] => attendees
  | participant :: rest =>
      let email := strip participant in
      if contains "@" email
      then attendees_loop rest (attendees ++ [{[ "email" := email ]}])
      else attendees_loop rest attendees
  end.

(** [_parse_attendees] *)
Definition _parse_attendees (participants_str : string)
  : list (gmap string string) :=
  if truthy participants_str
  then attendees_loop (split "," participants_str) []
  else [].

(** One directive of [strptime] made of one or two digits: [two] tells the
    pairs it accepts, [one] the single digits; the value and the rest of
    the text come back. *)
Definition directive (two : Z -> Z -> bool) (one : Z -> bool) (s : string)
  : option (Z * string) :=
  match s with
  | String a (String b r) =>
      match digit a, digit b with
      | Some x, Some y =>
          if two x y then Some (10 * x + y, r)
          else if one x then Some (x, String b r) else None
      | Some x, None => if one x then Some (x, String b r) else None
      | None, _ => None
      end
  | String a EmptyString =>
      x ← digit a; if one x then Some (x, EmptyString) else None
  | EmptyString => None
  end.

(** A literal character of the format (letters compare without case). *)
Definition literal (c : ascii) (s : string) : option string :=
  match s with
  | String a r =>
      if Ascii.eqb (EmailIntegration.lower a) (EmailIntegration.lower c)
      then Some r else None
  | EmptyString => None
  end.

(** [%d]: [3[0-1]|[1-2]\d|0[1-9]|[1-9]| [1-9]] *)
Definition directive_day (s : string) : option (Z * string) :=
  match s with
  | String " " (String b r) =>
      y ← digit b; if 1 <=? y then Some (y, r) else None
  | _ =>
      directive (fun x y => ((x =? 3) && (y <=? 1)) || ((1 <=? x) && (x <=? 2))
                            || ((x =? 0) && (1 <=? y)))
                (fun x => 1 <=? x) s
  end.

(** [datetime.datetime.strptime(s, '%Y-%m-%dT%H:%M:%S')] *)
Definition strptime_ymdhms (s : string) : res datetime :=
  value_error
    (y ← fixed_number 4 (take_string 4 s);
     s ← literal "-" (drop_string 4 s);
     '(m, s) ← directive (fun x y => ((x =? 1) && (y <=? 2)) || ((x =? 0) && (1 <=? y)))
                         (fun x => 1 <=? x) s;
     s ← literal "-" s;
     '(d, s) ← directive_day s;
     s ← literal "T" s;
     '(h, s) ← directive (fun x y => ((x =? 2) && (y <=? 3)) || (x <=? 1))
                         (fun _ => true) s;
     s ← literal ":" s;
     '(mi, s) ← directive (fun x _ => x <=? 5) (fun _ => true) s;
     s ← literal ":" s;
     '(x, s) ← directive (fun x y => ((x =? 6) && (y <=? 1)) || (x <=? 5))
                         (fun _ => true) s;
     if negb (truthy s) && valid_date y m d && (x <? 60)
     then Some (mkDT y m d h mi x None) else None).

(** [_format_datetime].  [now_date], [now_time] and [now_iso] are the three
    readings of the clock the function may take:
    [now().strftime('%Y-%m-%d')], [now().strftime('%H:%M')] and
    [now().isoformat()]. *)
Definition _format_datetime (now_date now_time now_iso : string)
    (date_str time_str : string) : res string :=
  let date_str := if truthy date_str then date_str else now_date in
  let time_str := if truthy time_str then time_str else now_time in
  try! time_str := first_item (split_ws time_str) in
  let dt_str := date_str +:+ "T" +:+ time_str +:+ ":00" in
  match strptime_ymdhms dt_str with
  | Ok dt => Ok (isoformat dt)
  | Raise _ => Ok now_iso
  end.

End CalendarIntegration.

(* ===================================================================== *)
(** ** utils/helpers.py *)
(* ===================================================================== *)

Module Helpers.

(** [truncate_text].  [len] and the slice count the characters of the text;
    the characters of a [string] are those of the Python text when it is
    ASCII. *)
Definition truncate_text (text : string) (max_length : Z) : string :=
  if Z.of_nat (String.length text) <=? max_length then text
  else slice_to (max_length - 3) text +:+ "...".

End Helpers.

(* ===================================================================== *)
(** ** app.py: the Send Response action *)
(* ===================================================================== *)

Module App.
Import MemoryManager EmailIntegration.

(** What the action does to the outside, in order. *)
Inductive effect : Type :=
| Committed (row : Response.t)
| SendEmailCalled (to subject text : string) (reply_to : option string)
| Notice (success : bool).

Record world : Type := mkWorld { database : db; effects : list effect }.

Definition emit (w : world) (e : effect) : world :=
  mkWorld (database w) (effects w ++ [e])%list.

(** The body of [if st.button("Send Response"):].  [uuid] is the value of
    [str(uuid.uuid4())], [now] that of [datetime.now()], [edited_response]
    the content of the edit box. *)
Definition send_response_clicked (svc : GmailService) (uuid : string) (now : Z)
    (email : Email.t) (edited_response : string) (w : world) : res world :=
  let response_data :=
    mkResponseData uuid (Email.id email) edited_response (Some now) (Some true) in
  try! saved := save_response now (database w) response_data in
  let w := emit (mkWorld (snd saved) (effects w)) (Committed (fst saved)) in
  let to := Email.sender email in
  let subject := "Re: " +:+ Email.subject email in
  let w := emit w (SendEmailCalled to subject edited_response (Some (Email.id email))) in
  let sent := send_email svc to subject edited_response (Some (Email.id email)) in
  Ok (emit w (Notice sent)).

(** The draft area of the Inbox page: it is rendered, and the button can be
    pressed, only while [st.session_state.draft_response] is non-empty. *)
Definition draft_area (svc : GmailService) (uuid : string) (now : Z)
    (email : Email.t) (draft_response edited_response : string)
    (send_pressed : bool) (w : world) : res world :=
  if truthy draft_response && send_pressed
  then send_response_clicked svc uuid now email edited_response w
  else Ok w.

(** *** The other actions of the Inbox page *)

(** The part of [st.session_state] the actions write. *)
Record session : Type := mkSession
  { ss_draft_response : string;
    ss_search_results : string;
    ss_meeting_details : gmap string string;
    ss_available_slots : list string }.

(** The body of [if st.button("Analyze Email"):].  The session as the action
    leaves it comes back together with the exception that ended it, if any.
    [calendar] is [None] when the calendar could not be set up. *)
Definition analyze_clicked (pipe : string -> string)
    (calendar : option CalendarIntegration.CalendarService)
    (email : Email.t) (st : session) : session * option exn :=
  let classification := LLMProcessor.classify_email pipe (Email.body email) in
  let summary := LLMProcessor.summarize_email pipe (Email.body email) in
  if occurs "Meeting Request" classification then
    match LLMProcessor.extract_meeting_details (LLMProcessor.generate_text pipe)
            (Email.body email) with
    | Raise e => (st, Some e)
    | Ok meeting_details =>
        let st := mkSession (ss_draft_response st) (ss_search_results st)
                            meeting_details (ss_available_slots st) in
        match meeting_details !! "Date" with
        | None => (st, None)
        | Some date =>
            match calendar with
            | None => (st, Some AttributeError)
            | Some svc =>
                match py_int (default "60" (meeting_details !! "Duration")) with
                | Raise e => (st, Some e)
                | Ok duration =>
                    let available_slots :=
                      CalendarIntegration.suggest_meeting_times svc date duration 3 in
                    (mkSession (ss_draft_response st) (ss_search_results st)
                               (ss_meeting_details st) available_slots, None)
                end
            end
        end
    end
  else (st, None).

(** The body of [if st.button("Generate Response"):]. *)
Definition generate_response_clicked (pipe : string -> string)
    (search : SearchIntegration.t) (email : Email.t) (st : session)
  : session * option exn :=
  let search_query := LLMProcessor.generate_search_query pipe (Email.body email) in
  match SearchIntegration.search_and_format search search_query 3 with
  | Raise e => (st, Some e)
  | Ok search_results =>
      let st := mkSession (ss_draft_response st) search_results
                          (ss_meeting_details st) (ss_available_slots st) in
      let response :=
        LLMProcessor.generate_response pipe (Email.body email) (Email.sender email)
                                       (Some search_results) in
      (mkSession response (ss_search_results st) (ss_meeting_details st)
                 (ss_available_slots st), None)
  end.

End App.

(* ===================================================================== *)
(** * The terms of the statements *)
(* ===================================================================== *)

(** Predicates, sample data and sample providers used in the statements
    below. *)

Section MeetingDetailsTerms.
Import LLMProcessor.

(** [line] reads [kraw:vraw], the colon shown being its first. *)
Definition labelled (line kraw vraw : string) : Prop :=
  line = kraw +:+ String ":" vraw /\ contains ":" kraw = false.

(** The lines the parser looks at. *)
Definition lines_of (result : string) : list string := split "010" (strip result).

End MeetingDetailsTerms.

Section RecordStoreTerms.
Import MemoryManager.

(** The row that [save_email] builds from a dictionary. *)
Definition email_row (now : Z) (e : EmailData) : Email.t :=
  Email.mk (ed_id e) (ed_sender e) (ed_recipient e) (ed_subject e) (ed_body e)
           (default now (ed_timestamp e)) (ed_thread_id e)
           (default false (ed_has_attachment e)).

(** The row that [save_response] builds from a dictionary. *)
Definition response_row (now : Z) (r : ResponseData) : Response.t :=
  Response.mk (rd_id r) (rd_email_id r) (rd_content r)
              (default now (rd_timestamp r)) (default false (rd_sent r)).

(** Saving the emails of a list one after the other, in the order given. *)
Fixpoint save_emails (now : Z) (d : db) (l : list EmailData) : res db :=
  match l with
  | [] => Ok d
  | e :: rest =>
      try! saved := save_email now d e in
      save_emails now (snd saved) rest
  end.

End RecordStoreTerms.

Section ReingestTerms.
Import MemoryManager EmailIntegration.

(** A message as [_parse_email] hands it over. *)
Definition budget_mail : EmailData :=
  mkEmailData "18f3a1" "alice@example.com" "me@example.com" "Budget"
              "Numbers attached." (Some 1714557600) "18f3a1" None [].

Definition budget_row : Email.t := email_row 0 budget_mail.

(** A provider whose listing holds that one message. *)
Definition one_message_inbox : GmailService :=
  mkGmail (fun _ => Ok ["18f3a1"])
          (fun _ => Raise ProviderError)
          (fun _ => Raise ProviderError).

Definition parse_budget_mail (message_id : string) : option EmailData :=
  if String.eqb message_id "18f3a1" then Some budget_mail else None.

End ReingestTerms.

Section StoreExamplesTerms.
Import MemoryManager EmailIntegration App.

(** A provider that knows the original message and accepts the reply. *)
Definition willing_provider : GmailService :=
  mkGmail (fun _ => Ok ["18f3a1"])
          (fun _ => Ok [("Message-ID", "<abc@x>"); ("Subject", "Budget")])
          (fun _ => Ok "18f3a2").

Definition later_mail : EmailData :=
  mkEmailData "18f3b7" "bob@example.com" "me@example.com" "Re: Budget"
              "Looks fine." (Some 1714561200) "18f3a1" None [].

Definition other_mail : EmailData :=
  mkEmailData "18f3c9" "carol@example.com" "me@example.com" "Lunch"
              "Friday?" (Some 1714500000) "18f3c9" None [].

(** The store after the emails of [l] went in, in that order. *)
Definition store_of (l : list EmailData) : db :=
  mkDb (email_row 0 <$> l) [] [].

End StoreExamplesTerms.

Section SearchTerms.
Import SearchIntegration.

(** The outcome of the one HTTP call that [search] issues. *)
Definition provider_answer (self : t) (query : string) (num_results : Z)
  : res Response :=
  requests_get self url
    (mkParams (api_key self) (search_engine_id self) query (Z.min num_results 10)).

(** The ways the provider can fail: the call raises, the answer carries a
    status other than 200, or its body cannot be decoded. *)
Inductive provider_failure : res Response -> Prop :=
| call_raised e : provider_failure (Raise e)
| bad_status response :
    status_code response <> 200 -> provider_failure (Ok response)
| bad_body response e :
    json response = Raise e -> provider_failure (Ok response).

(** A provider that answers every request with status 403. *)
Definition refusing_provider : t :=
  mk (Some "k") (Some "e")
     (fun _ _ => Ok (mkResponse 403 "quota exceeded" (Raise ValueError))).

(** A provider with two items, the second without a snippet. *)
Definition two_items : list (gmap string string) :=
  [ {[ "title" := "Budget 2024"; "link" := "https://a.example/b";
       "snippet" := "The budget." ]};
    {[ "title" := "Forecast"; "link" := "https://a.example/f" ]} ].

Definition answering_provider : t :=
  mk (Some "k") (Some "e")
     (fun _ _ => Ok (mkResponse 200 EmptyString (Ok (mkData (Some two_items))))).

End SearchTerms.

Section RepliesTerms.
Import EmailIntegration.

(** The References chain of a reply: the original chain, then the original
    Message-ID, a space between them when the chain is not empty. *)
Definition extend_chain (R M : string) : string :=
  match R with
  | EmptyString => M
  | _ => R +:+ " " +:+ M
  end.

(** The subject field written last. *)
Definition final_subject (m : MimeMessage) : option string :=
  last (get_all m "subject").

(** A provider whose original message carries the given header fields. *)
Definition original_with (hs : list (string * string)) : GmailService :=
  mkGmail (fun _ => Ok []) (fun _ => Ok hs) (fun _ => Ok "18f3a2").

(** The subject rule of the reply block: a passed subject that starts with
    [Re:] stays; otherwise the subject of the original, when it is not blank,
    is written with [Re: ] before it; otherwise the passed subject stays. *)
Definition reply_subject (subject original_subject : string) : string :=
  if startswith "Re:" subject then subject
  else if truthy (strip original_subject) then "Re: " +:+ original_subject
  else subject.

(** The text carries the prefix [Re: ] once and not twice. *)
Definition prefixed_once (s : string) : bool :=
  startswith "Re: " s && negb (startswith "Re: Re: " s).

End RepliesTerms.

Section BodyExtractionTerms.
Import EmailIntegration.

(** The body data of a part, when it has some. *)
Definition own_data (p : MessagePart) : option string :=
  match body p ≫= data with
  | Some (String c r) => Some (String c r)
  | _ => None
  end.

(** [p] is a part of type [mime] that carries the data [d]. *)
Definition text_part (mime d : string) (p : MessagePart) : Prop :=
  mimeType p = Some mime /\ own_data p = Some d.

(** [p] has a type, and is not a text/plain or text/html part with data. *)
Definition not_text_part (p : MessagePart) : Prop :=
  exists mt,
    mimeType p = Some mt
    /\ (mt = "text/plain" \/ mt = "text/html" ->
        exists b, body p = Some b /\ truthy_opt (data b) = false).

(** A part the loop passes over: no text data, no parts of its own. *)
Definition passed_over (p : MessagePart) : Prop :=
  not_text_part p /\ parts p = None.

(** Nothing to extract at or below [p]: no text/plain or text/html data, and
    where [p] holds parts it has no data of its own and its parts are quiet. *)
Inductive quiet : MessagePart -> Prop :=
| quiet_part p :
    not_text_part p ->
    (forall l, parts p = Some l -> own_data p = None /\ Forall quiet l) ->
    quiet p.

End BodyExtractionTerms.

Section BodyExamplesTerms.
Import EmailIntegration.

(** A part with body data and no parts of its own. *)
Definition leaf (mime d : string) : MessagePart :=
  mkPart (Some mime) (Some EmptyString) (Some (mkBody (Some d) None)) None.

(** A part that holds parts and has no body data. *)
Definition container (mime : string) (l : list MessagePart) : MessagePart :=
  mkPart (Some mime) (Some EmptyString) (Some (mkBody None None)) (Some l).

(** The encodings of [<p>Hi <b>there</b></p>], of [Hi there, plainly.] and of
    [<p>Hi  <b>there</b></p>] (two spaces). *)
Definition html_data : string := "PHA-SGkgPGI-dGhlcmU8L2I-PC9wPg==".
Definition plain_data : string := "SGkgdGhlcmUsIHBsYWlubHku".
Definition spaced_html_data : string := "PHA-SGkgIDxiPnRoZXJlPC9iPjwvcD4=".

End BodyExamplesTerms.

Section FreeSlotsTerms.
Import CalendarIntegration.

(** A timed event, by the [timeZone] and the [dateTime] texts of its start
    and end. *)
Definition timed_event (zone start_text end_text : string) : Event :=
  mkEvent (Some {[ "dateTime" := start_text; "timeZone" := zone ]})
          (Some {[ "dateTime" := end_text; "timeZone" := zone ]}).

(** A calendar that answers every listing with the given events. *)
Definition calendar_with (events : list Event) : CalendarService :=
  mkCalendar (fun _ _ => Ok events).

End FreeSlotsTerms.

Section ParseEmailTerms.
Import MemoryManager EmailIntegration.

(** The answer of the attachment download, when there is one. *)
Definition attachments_get_ok (reader : GmailReader) (message_id : string)
    (attachment_id : string) : option (option string) :=
  match attachments_get reader message_id attachment_id with
  | Ok a => Some a
  | Raise _ => None
  end.

End ParseEmailTerms.

Section CalendarTerms.
Import CalendarIntegration.

(** Every character of the text is white space. *)
Fixpoint all_space (s : string) : bool :=
  match s with
  | EmptyString => true
  | String c r => isspace c && all_space r
  end.

(** No character of the text is white space. *)
Fixpoint no_space (s : string) : bool :=
  match s with
  | EmptyString => true
  | String c r => negb (isspace c) && no_space r
  end.

(** An event without a [dateTime] in its start, such as an all-day event. *)
Definition untimed (event : Event) : Prop :=
  exists st, ev_start event = Some st /\ truthy_opt (st !! "dateTime") = false.

(** An all-day event on the given day. *)
Definition all_day_event (date : string) : Event :=
  mkEvent (Some {[ "date" := date ]}) (Some {[ "date" := date ]}).

End CalendarTerms.

Section ReadingExamplesTerms.
Import MemoryManager EmailIntegration.

(** The surroundings of a run: the decoder of the examples, a date reader
    that answers with one instant, and numbered identifiers. *)
Definition sample_env : ParseEnv :=
  mkParseEnv b64_text (fun _ => Ok 1714557600) 0 (fun k => "uuid-" +:+ pretty k).

(** A part that refers to an attachment. *)
Definition report_part : MessagePart :=
  mkPart (Some "application/pdf") (Some "report.pdf")
         (Some (mkBody None (Some "att1"))) None.

(** A message with a plain text and one attachment, and no thread id. *)
Definition sample_payload : MessagePart :=
  container "multipart/mixed" [leaf "text/plain" plain_data; report_part].

Definition sample_message : Message :=
  mkMessage (Some sample_payload)
            (Some [("Subject", "Budget"); ("From", "alice@example.com")]) None.

(** A reader that hands out the message and its attachment, and one whose
    attachment download fails. *)
Definition sample_reader : GmailReader :=
  mkReader (fun _ => Ok sample_message) (fun _ _ => Ok (Some "JVBERi0=")).

Definition failing_reader : GmailReader :=
  mkReader (fun _ => Ok sample_message) (fun _ _ => Raise ProviderError).

End ReadingExamplesTerms.

(* ===================================================================== *)
(** * Properties *)
(* ===================================================================== *)

(** ** Strings *)

Section StringFacts.

Lemma contains_app_sep c k v :
  contains c (k +:+ String c v) = true.
Proof.
  induction k as [|a k IH]; simpl.
  - by rewrite Ascii.eqb_refl.
  - destruct (Ascii.eqb a c); [done | exact IH].
Qed.

(** Cutting at the first separator gives back the two sides. *)
Lemma split1_app c k v :
  contains c k = false -> split1 c (k +:+ String c v) = [k; v].
Proof.
  induction k as [|a k IH]; simpl; intros Hk.
  - by rewrite Ascii.eqb_refl.
  - destruct (Ascii.eqb a c); [done |]. by rewrite (IH Hk).
Qed.

(** A text that holds the separator splits in exactly two. *)
Lemma split1_cut c s :
  contains c s = true ->
  exists k v, s = k +:+ String c v /\ contains c k = false /\ split1 c s = [k; v].
Proof.
  induction s as [|a s IH]; simpl; [done |].
  destruct (Ascii.eqb a c) eqn:E.
  - intros _. apply Ascii.eqb_eq in E as ->.
    exists EmptyString, s. by rewrite ?Ascii.eqb_refl.
  - intros Hs. destruct (IH Hs) as (k & v & -> & Hk & Hsp).
    exists (String a k), v. simpl. rewrite E, Hsp. done.
Qed.

End StringFacts.

(** ** Meeting-detail parsing *)

Section MeetingDetails.
Import LLMProcessor.

Lemma parse_line_labelled d line kraw vraw :
  labelled line kraw vraw ->
  parse_line d line = Ok (<[strip kraw := strip vraw]> d).
Proof.
  intros [-> Hk]. unfold parse_line.
  by rewrite contains_app_sep, (split1_app _ _ _ Hk).
Qed.

Lemma parse_line_cases d line :
  (contains ":" line = false /\ parse_line d line = Ok d)
  \/ (exists kraw vraw, labelled line kraw vraw
                        /\ parse_line d line = Ok (<[strip kraw := strip vraw]> d)).
Proof.
  destruct (contains ":" line) eqn:E.
  - right. destruct (split1_cut _ _ E) as (k & v & Hl & Hk & _).
    exists k, v. split; [done |]. by apply parse_line_labelled.
  - left. split; [done |]. unfold parse_line. by rewrite E.
Qed.

(** The loop never raises. *)
Lemma parse_lines_total lines : forall d, exists m, parse_lines d lines = Ok m.
Proof.
  induction lines as [|line rest IH]; intros d; simpl; [by eexists |].
  destruct (parse_line_cases d line) as [[_ ->] | (k & v & _ & ->)]; simpl; apply IH.
Qed.

Lemma parse_lines_app l1 l2 d :
  parse_lines d (l1 ++ l2) = (try! d1 := parse_lines d l1 in parse_lines d1 l2).
Proof.
  revert d. induction l1 as [|line rest IH]; intros d; simpl; [done |].
  destruct (parse_line d line); simpl; [apply IH | done].
Qed.

(** Every entry of the result was there before or comes from a labelled line. *)
Lemma parse_lines_sound lines : forall d m,
  parse_lines d lines = Ok m ->
  forall k v, m !! k = Some v ->
    d !! k = Some v
    \/ exists line kraw vraw,
         line ∈ lines /\ labelled line kraw vraw
         /\ k = strip kraw /\ v = strip vraw.
Proof.
  induction lines as [|line rest IH]; intros d m Hm k v Hkv; simpl in Hm.
  - left. congruence.
  - assert (Hrest : forall d',
               parse_lines d' rest = Ok m ->
               d' !! k = Some v
               \/ exists l kraw vraw,
                    l ∈ line :: rest /\ labelled l kraw vraw
                    /\ k = strip kraw /\ v = strip vraw).
    { intros d' Hd'.
      destruct (IH _ _ Hd' _ _ Hkv) as [Hd | (l & kr' & vr' & Hin & Hl' & ? & ?)];
        [by left |].
      right. exists l, kr', vr'. split_and!; [by apply elem_of_cons; right | done..]. }
    destruct (parse_line_cases d line) as [[_ Hp] | (kr & vr & Hl & Hp)];
      rewrite Hp in Hm; simpl in Hm; destruct (Hrest _ Hm) as [Hd | Hfound];
      [by left | by right | | by right].
    destruct (decide (strip kr = k)) as [<- | Hne].
    + rewrite lookup_insert_eq in Hd. injection Hd as <-.
      right. exists line, kr, vr. split_and!; [by apply elem_of_cons; left | done..].
    + rewrite lookup_insert_ne in Hd by done. by left.
Qed.

(** Lines that do not set [k] leave its entry alone. *)
Lemma parse_lines_keep lines k : forall d m,
  parse_lines d lines = Ok m ->
  (forall line kraw vraw, line ∈ lines -> labelled line kraw vraw -> strip kraw <> k) ->
  m !! k = d !! k.
Proof.
  induction lines as [|line rest IH]; intros d m Hm Hno; simpl in Hm.
  - congruence.
  - destruct (parse_line_cases d line) as [[_ Hp] | (kr & vr & Hl & Hp)];
      rewrite Hp in Hm; simpl in Hm.
    + apply (IH _ _ Hm). intros l a b Hin. apply Hno. by apply elem_of_cons; right.
    + rewrite (IH _ _ Hm).
      * apply lookup_insert_ne. apply (Hno line kr vr); [apply elem_of_cons; by left | done].
      * intros l a b Hin. apply Hno. by apply elem_of_cons; right.
Qed.

(** C7.  For every generated text the parser returns a dictionary (it never
    raises); every entry of it is the stripped key and stripped value of a
    line cut at its first colon, so a line without a colon contributes
    nothing and a key is kept whatever it is; and for each line with a
    colon the dictionary maps its stripped key to its stripped value unless
    a later line sets the same key.  The text of the example parses to
    exactly the three entries Date, Time and Duration. *)
Theorem meeting_details_parsing (result : string) :
  exists m,
    parse_meeting_details result = Ok m
    /\ (forall k v, m !! k = Some v ->
          exists line kraw vraw,
            line ∈ lines_of result /\ labelled line kraw vraw
            /\ k = strip kraw /\ v = strip vraw)
    /\ (forall before line after kraw vraw,
          lines_of result = before ++ line :: after ->
          labelled line kraw vraw ->
          (forall l k' v', l ∈ after -> labelled l k' v' -> strip k' <> strip kraw) ->
          m !! strip kraw = Some (strip vraw))
    /\ (forall before line after,
          lines_of result = before ++ line :: after ->
          contains ":" line = false ->
          parse_lines ∅ (before ++ after) = Ok m)
    /\ parse_meeting_details
         ("Date: 2024-05-01" +:+ nl +:+ "Time: 14:00" +:+ nl
          +:+ "BadLineNoColon" +:+ nl +:+ "Duration: 45")
       = Ok (<["Date" := "2024-05-01"]>
               (<["Time" := "14:00"]> (<["Duration" := "45"]> ∅))).
Proof.
  unfold parse_meeting_details. fold (lines_of result).
  destruct (parse_lines_total (lines_of result) ∅) as [m Hm].
  exists m. split_and!; [done | | | |].
  - intros k v Hkv.
    destruct (parse_lines_sound _ _ _ Hm _ _ Hkv) as [He | H]; [| done].
    by rewrite lookup_empty in He.
  - intros before line after kraw vraw Hsplit Hl Hlater.
    rewrite Hsplit, parse_lines_app in Hm.
    destruct (parse_lines_total before ∅) as [d1 Hd1].
    rewrite Hd1 in Hm. simpl in Hm.
    rewrite (parse_line_labelled d1 _ _ _ Hl) in Hm. simpl in Hm.
    rewrite (parse_lines_keep _ (strip kraw) _ _ Hm Hlater).
    apply lookup_insert_eq.
  - intros before line after Hsplit Hno.
    rewrite Hsplit, parse_lines_app in Hm. rewrite parse_lines_app.
    destruct (parse_lines ∅ before) as [d1|]; simpl in *; [| done].
    unfold parse_line in Hm. by rewrite Hno in Hm.
  - vm_compute. reflexivity.
Qed.

(** A run on the text of the example: the Time line is cut at its first
    colon only, and the line without a colon leaves no entry. *)
Lemma meeting_details_parsing_witness :
  exists m,
    parse_meeting_details
      ("Date: 2024-05-01" +:+ nl +:+ "Time: 14:00" +:+ nl
       +:+ "BadLineNoColon" +:+ nl +:+ "Duration: 45") = Ok m
    /\ m !! "Time" = Some "14:00".
Proof.
  destruct (meeting_details_parsing
              ("Date: 2024-05-01" +:+ nl +:+ "Time: 14:00" +:+ nl
               +:+ "BadLineNoColon" +:+ nl +:+ "Duration: 45"))
    as (m & Hm & _ & Hlast & _ & _).
  exists m. split; [exact Hm |].
  apply (Hlast ["Date: 2024-05-01"] "Time: 14:00"
               ["BadLineNoColon"; "Duration: 45"] "Time" " 14:00").
  - reflexivity.
  - split; reflexivity.
  - intros l k' v' Hin [Hl Hk'].
    pose proof (split1_app ":" k' v' Hk') as Hcut. rewrite <- Hl in Hcut.
    apply elem_of_cons in Hin as [-> | Hin].
    + vm_compute in Hcut. discriminate.
    + apply list_elem_of_singleton in Hin as ->.
      vm_compute in Hcut. injection Hcut as <- _.
      vm_compute. discriminate.
Defined.

End MeetingDetails.

(** ** The record store *)

Section RecordStore.
Import MemoryManager.

Lemma insert_row_taken {A} (pk : A -> string) table row :
  pk row ∈ pk <$> table -> insert_row pk table row = Raise IntegrityError.
Proof. intros H. unfold insert_row. by rewrite bool_decide_eq_true_2. Qed.

Lemma insert_row_free {A} (pk : A -> string) table row :
  pk row ∉ pk <$> table -> insert_row pk table row = Ok (table ++ [row]).
Proof. intros H. unfold insert_row. by rewrite bool_decide_eq_false_2. Qed.

Lemma insert_row_inv {A} (pk : A -> string) table row table' :
  insert_row pk table row = Ok table' ->
  (pk row ∉ pk <$> table) /\ table' = table ++ [row].
Proof.
  unfold insert_row. case_bool_decide; [done |]. intros [= <-]. done.
Qed.

Lemma save_email_inv now d e r d' :
  save_email now d e = Ok (r, d') ->
  r = email_row now e
  /\ (Email.id r ∉ Email.id <$> emails d)
  /\ emails d' = emails d ++ [r]
  /\ attachments d' = attachments d /\ responses d' = responses d.
Proof.
  unfold save_email. fold (email_row now e).
  destruct (insert_row Email.id (emails d) (email_row now e)) as [t|] eqn:E;
    simpl; [| done].
  intros [= <- <-]. apply insert_row_inv in E as [? ->]. done.
Qed.

Lemma save_email_fresh now d e :
  ed_id e ∉ Email.id <$> emails d ->
  save_email now d e
  = Ok (email_row now e,
        mkDb (emails d ++ [email_row now e]) (attachments d) (responses d)).
Proof.
  intros H. unfold save_email. fold (email_row now e).
  by rewrite insert_row_free.
Qed.

(** Saving under an id that is stored already raises; nothing is replaced. *)
Lemma save_email_stored_id now d e :
  ed_id e ∈ Email.id <$> emails d ->
  save_email now d e = Raise IntegrityError.
Proof.
  intros H. unfold save_email. by rewrite insert_row_taken.
Qed.

Lemma save_email_again now now' d e e' r d' :
  save_email now d e = Ok (r, d') ->
  ed_id e' = ed_id e ->
  save_email now' d' e' = Raise IntegrityError.
Proof.
  intros (-> & _ & Hrows & _)%save_email_inv Hid.
  apply save_email_stored_id. rewrite Hrows, fmap_app, Hid.
  apply elem_of_app. right. simpl. apply elem_of_cons. by left.
Qed.

(** The primary key keeps the ids of the stored emails distinct. *)
Lemma save_email_NoDup now d e r d' :
  NoDup (Email.id <$> emails d) ->
  save_email now d e = Ok (r, d') ->
  NoDup (Email.id <$> emails d').
Proof.
  intros Hnd (-> & Hfresh & -> & _)%save_email_inv.
  rewrite fmap_app. apply NoDup_app. split_and!; [done | | apply NoDup_singleton].
  intros x Hx [-> | []%elem_of_nil]%elem_of_cons. done.
Qed.

Lemma save_response_fresh now d r :
  rd_id r ∉ Response.id <$> responses d ->
  save_response now d r
  = Ok (response_row now r,
        mkDb (emails d) (attachments d) (responses d ++ [response_row now r])).
Proof.
  intros H. unfold save_response. fold (response_row now r).
  by rewrite insert_row_free.
Qed.

Lemma save_response_stored_id now d r :
  rd_id r ∈ Response.id <$> responses d ->
  save_response now d r = Raise IntegrityError.
Proof.
  intros H. unfold save_response. by rewrite insert_row_taken.
Qed.

Lemma save_emails_rows now l : forall d d',
  save_emails now d l = Ok d' ->
  emails d' = emails d ++ (email_row now <$> l).
Proof.
  induction l as [|e rest IH]; intros d d'; simpl.
  - intros [= <-]. by rewrite app_nil_r.
  - destruct (save_email now d e) as [[r d1]|] eqn:E; simpl; [| done].
    intros Hrest. apply save_email_inv in E as (-> & _ & Hrows & _).
    rewrite (IH _ _ Hrest), Hrows, <- app_assoc. done.
Qed.

(** Emails with distinct ids all go into an empty store. *)
Lemma save_emails_distinct now l : forall d,
  NoDup ((Email.id <$> emails d) ++ (ed_id <$> l)) ->
  exists d', save_emails now d l = Ok d'.
Proof.
  induction l as [|e rest IH]; intros d Hnd; simpl; [by eexists |].
  apply NoDup_app in Hnd as (Hd & Hdisj & Hl).
  rewrite fmap_cons in Hl. apply NoDup_cons in Hl as [He Hrest].
  rewrite save_email_fresh; simpl.
  - apply IH. simpl. rewrite fmap_app, <- app_assoc. simpl.
    apply NoDup_app. split_and!; [done | | by apply NoDup_cons].
    intros x Hx. apply Hdisj in Hx. done.
  - intros Hin. apply (Hdisj _ Hin). rewrite fmap_cons. apply elem_of_cons. by left.
Qed.

Global Instance timestamp_le_total : Total timestamp_le.
Proof. intros a b. unfold timestamp_le. lia. Qed.

Global Instance timestamp_le_trans : Transitive timestamp_le.
Proof. intros a b c. unfold timestamp_le. lia. Qed.

Lemma thread_rows d tid :
  get_emails_by_thread d tid
  ≡ₚ filter (fun e => Email.thread_id e = tid) (emails d).
Proof. apply merge_sort_Permutation. Qed.

Lemma thread_sorted d tid :
  StronglySorted timestamp_le (get_emails_by_thread d tid).
Proof. apply StronglySorted_merge_sort; apply _. Qed.

Lemma thread_timestamps_sorted d tid :
  Sorted Z.le (Email.timestamp <$> get_emails_by_thread d tid).
Proof.
  apply (Sorted_fmap _ timestamp_le); [by intros a b |].
  apply Sorted_merge_sort. apply _.
Qed.

(** C9.  Whatever the order in which the emails were inserted: when the same
    emails are saved into an empty store in two orders, retrieving a thread
    from either store gives its emails (those saved with that thread id, and
    only those) sorted by timestamp ascending, and both retrievals show the
    same sequence of timestamps. *)
Theorem thread_sorted_any_insertion_order
    (now : Z) (tid : string) (l l' : list EmailData) (d d' : db) :
  l ≡ₚ l' ->
  save_emails now init_db l = Ok d ->
  save_emails now init_db l' = Ok d' ->
  StronglySorted timestamp_le (get_emails_by_thread d' tid)
  /\ get_emails_by_thread d' tid
     ≡ₚ filter (fun r => Email.thread_id r = tid) (email_row now <$> l)
  /\ get_emails_by_thread d' tid ≡ₚ get_emails_by_thread d tid
  /\ Email.timestamp <$> get_emails_by_thread d' tid
     = Email.timestamp <$> get_emails_by_thread d tid.
Proof.
  intros Hperm Hd Hd'.
  apply save_emails_rows in Hd, Hd'. simpl in Hd, Hd'.
  assert (Hsame : get_emails_by_thread d' tid ≡ₚ get_emails_by_thread d tid).
  { rewrite !thread_rows, Hd, Hd'. by rewrite Hperm. }
  split_and!.
  - apply thread_sorted.
  - rewrite thread_rows, Hd'. by rewrite Hperm.
  - exact Hsame.
  - apply (Sorted_unique Z.le); [apply thread_timestamps_sorted.. |].
    by rewrite Hsame.
Qed.

End RecordStore.

(** ** Ingesting an id twice *)

Section Reingest.
Import MemoryManager EmailIntegration.

(** C1.  What the code does when an id is ingested twice: the first
    [save_email] stores the row; the second, under the same id, raises
    [IntegrityError] and the store keeps its single row; a second
    [get_emails] over the same listing therefore raises as well. *)
Theorem reingest_same_id_raises :
  save_email 0 init_db budget_mail = Ok (budget_row, mkDb [budget_row] [] [])
  /\ save_email 0 (mkDb [budget_row] [] []) budget_mail = Raise IntegrityError
  /\ get_emails one_message_inbox parse_budget_mail 0 20 init_db
     = Ok ([budget_mail], mkDb [budget_row] [] [])
  /\ get_emails one_message_inbox parse_budget_mail 0 20 (mkDb [budget_row] [] [])
     = Raise IntegrityError.
Proof. split_and!; vm_compute; reflexivity. Qed.

(** The same for any store and any two dictionaries with one id. *)
Lemma ingest_stored_id_raises _parse_email now id rest e seen d :
  _parse_email id = Some e ->
  ed_id e ∈ Email.id <$> emails d ->
  ingest _parse_email now (id :: rest) seen d = Raise IntegrityError.
Proof.
  intros Hp Hin. simpl. rewrite Hp. by rewrite save_email_stored_id.
Qed.

End Reingest.

(** ** The Send Response action *)

Section SendResponse.
Import MemoryManager EmailIntegration App.

(** C3.  When the operator presses Send on a drafted email and the send
    succeeds (the id drawn for the row being new), exactly one row is added
    to the responses, with [sent] true and the edited text as content,
    whatever the draft was; the commit of the row comes before the call of
    [send_email], which gets the edited text too. *)
Theorem send_persists_edited_response
    (svc : GmailService) (uuid : string) (now : Z) (email : Email.t)
    (draft_response edited_response : string) (w : world) :
  truthy draft_response = true ->
  uuid ∉ Response.id <$> responses (database w) ->
  send_email svc (Email.sender email) ("Re: " +:+ Email.subject email)
             edited_response (Some (Email.id email)) = true ->
  let row := Response.mk uuid (Email.id email) edited_response now true in
  let call := SendEmailCalled (Email.sender email)
                              ("Re: " +:+ Email.subject email)
                              edited_response (Some (Email.id email)) in
  exists w',
    draft_area svc uuid now email draft_response edited_response true w = Ok w'
    /\ responses (database w') = responses (database w) ++ [row]
    /\ Response.sent row = true
    /\ Response.content row = edited_response
    /\ emails (database w') = emails (database w)
    /\ effects w' = effects w ++ [Committed row; call; Notice true].
Proof.
  intros Hdraft Hfresh Hsent row call.
  unfold draft_area, send_response_clicked. rewrite Hdraft.
  rewrite save_response_fresh by done.
  cbn [andb bind fst snd]. rewrite Hsent.
  eexists. split; [reflexivity |].
  unfold emit. cbn. rewrite <- !app_assoc. done.
Qed.

End SendResponse.

Section StoreExamples.
Import MemoryManager EmailIntegration App.

Lemma send_persists_edited_response_witness :
  truthy "Dear Alice, thanks." = true
  /\ ("r-1" ∉ Response.id <$> responses init_db)
  /\ exists w',
       draft_area willing_provider "r-1" 7 budget_row
                  "Dear Alice, thanks." "Hi Alice, thank you." true
                  (mkWorld init_db []) = Ok w'
       /\ responses (database w')
          = [Response.mk "r-1" "18f3a1" "Hi Alice, thank you." 7 true].
Proof.
  split; [reflexivity |]. split; [apply not_elem_of_nil |].
  destruct (send_persists_edited_response
              willing_provider "r-1" 7 budget_row
              "Dear Alice, thanks." "Hi Alice, thank you." (mkWorld init_db [])
              eq_refl (not_elem_of_nil _) eq_refl)
    as (w' & Hrun & Hrows & _).
  exists w'. split; [exact Hrun | exact Hrows].
Defined.

Lemma thread_sorted_any_insertion_order_witness :
  [budget_mail; later_mail; other_mail] ≡ₚ [later_mail; other_mail; budget_mail]
  /\ Email.timestamp
       <$> get_emails_by_thread (store_of [later_mail; other_mail; budget_mail])
                                "18f3a1"
     = [1714557600; 1714561200].
Proof.
  assert (Hp : [budget_mail; later_mail; other_mail]
               ≡ₚ [later_mail; other_mail; budget_mail]).
  { change ([budget_mail] ++ [later_mail; other_mail]
            ≡ₚ [later_mail; other_mail] ++ [budget_mail]).
    apply Permutation_app_comm. }
  split; [exact Hp |].
  destruct (thread_sorted_any_insertion_order
              0 "18f3a1" [budget_mail; later_mail; other_mail]
              [later_mail; other_mail; budget_mail]
              (store_of [budget_mail; later_mail; other_mail])
              (store_of [later_mail; other_mail; budget_mail])
              Hp eq_refl eq_refl)
    as (_ & _ & _ & Hts).
  rewrite Hts. vm_compute. reflexivity.
Defined.

End StoreExamples.

(** ** Search *)

Section Search.
Import SearchIntegration.

Lemma collect_fmap l : forall acc, collect acc l = acc ++ (result_of <$> l).
Proof.
  induction l as [|item rest IH]; intros acc; simpl.
  - by rewrite app_nil_r.
  - rewrite IH, <- app_assoc. done.
Qed.

Lemma search_unfold self query num_results :
  search self query num_results
  = match provider_answer self query num_results with
    | Ok response =>
        if status_code response =? 200 then
          match json response with
          | Ok data => result_of <$> default [] (items data)
          | Raise _ => []
          end
        else []
    | Raise _ => []
    end.
Proof.
  unfold search, search_body, provider_answer.
  destruct (requests_get _ _ _) as [response|]; simpl; [| done].
  destruct (status_code response =? 200); simpl; [| done].
  destruct (json response) as [data|]; simpl; [| done].
  destruct (items data) as [l|]; simpl; [| done].
  by rewrite collect_fmap.
Qed.

(** C8.  When the provider fails (the call raises, the status is not 200, or
    the body cannot be decoded), [search] returns the empty list; formatting
    the empty list gives the literal text; so [search_and_format] returns
    that text on any provider failure.  ([search] is a function into lists:
    no exception leaves it.) *)
Theorem search_failure_isolation (self : t) (query : string) (num_results : Z) :
  provider_failure (provider_answer self query num_results) ->
  search self query num_results = []
  /\ format_results_for_llm [] = Ok "No search results found."
  /\ search_and_format self query num_results = Ok "No search results found.".
Proof.
  intros Hfail.
  assert (Hnil : search self query num_results = []).
  { rewrite search_unfold.
    inversion Hfail as [e He | response Hs He | response e Hj He]; [done | |].
    - apply Z.eqb_neq in Hs. by rewrite Hs.
    - rewrite Hj. by destruct (status_code response =? 200). }
  split_and!; [done | done |].
  unfold search_and_format. by rewrite Hnil.
Qed.

Lemma search_failure_isolation_witness :
  provider_failure (provider_answer refusing_provider "budget 2024" 3)
  /\ search refusing_provider "budget 2024" 3 = []
  /\ search_and_format refusing_provider "budget 2024" 3
     = Ok "No search results found.".
Proof.
  assert (Hf : provider_failure (provider_answer refusing_provider "budget 2024" 3)).
  { apply bad_status. simpl. lia. }
  split; [exact Hf |].
  destruct (search_failure_isolation refusing_provider "budget 2024" 3 Hf)
    as (Hs & _ & Hf').
  split; [exact Hs | exact Hf'].
Defined.

Lemma result_of_dom (item : gmap string string) :
  dom (result_of item) = ({["title"; "link"; "snippet"]} : gset string).
Proof.
  unfold result_of. rewrite !dom_insert_L, dom_empty_L. set_solver.
Qed.

Lemma result_of_lookup (item : gmap string string) (field : string) :
  field ∈ ["title"; "link"; "snippet"] ->
  result_of item !! field = Some (default EmptyString (item !! field)).
Proof.
  intros Hf. unfold result_of.
  repeat (apply elem_of_cons in Hf as [-> | Hf]; [by simplify_map_eq |]).
  by apply elem_of_nil in Hf.
Qed.

(** C10.  Every element of what [search] returns has exactly the keys title,
    link and snippet; when the provider answers with status 200 and a body
    holding items, the elements are, in the order of the items, the three
    fields of each item, a field the item lacks being the empty text. *)
Theorem search_results_shape (self : t) (query : string) (num_results : Z) :
  Forall (fun r : gmap string string =>
            dom r = ({["title"; "link"; "snippet"]} : gset string))
         (search self query num_results)
  /\ (forall response data l,
        provider_answer self query num_results = Ok response ->
        status_code response = 200 ->
        json response = Ok data ->
        items data = Some l ->
        length (search self query num_results) = length l
        /\ forall i item,
             l !! i = Some item ->
             exists r,
               search self query num_results !! i = Some r
               /\ r !! "title" = Some (default EmptyString (item !! "title"))
               /\ r !! "link" = Some (default EmptyString (item !! "link"))
               /\ r !! "snippet" = Some (default EmptyString (item !! "snippet"))).
Proof.
  split.
  - rewrite search_unfold.
    destruct (provider_answer _ _ _) as [response|]; [| by constructor].
    destruct (status_code response =? 200); [| by constructor].
    destruct (json response) as [data|]; [| by constructor].
    apply Forall_fmap, Forall_forall. intros item _. apply result_of_dom.
  - intros response data l Ha Hs Hj Hi.
    rewrite search_unfold, Ha, Hs, Hj, Hi. simpl.
    split; [apply length_fmap |].
    intros i item Hl. exists (result_of item).
    rewrite list_lookup_fmap, Hl. simpl.
    split_and!; [done | apply result_of_lookup; set_solver..].
Qed.

Lemma search_results_shape_witness :
  exists r,
    search answering_provider "budget 2024" 3 !! 1%nat = Some r
    /\ r !! "title" = Some "Forecast"
    /\ r !! "snippet" = Some EmptyString.
Proof.
  destruct (proj2 (search_results_shape answering_provider "budget 2024" 3)
              _ _ two_items eq_refl eq_refl eq_refl eq_refl)
    as [_ Hitems].
  destruct (Hitems 1%nat _ eq_refl) as (r & Hr & Ht & _ & Hs).
  exists r. split; [exact Hr |]. split; [exact Ht | exact Hs].
Defined.

End Search.

(** ** Replies *)

Section Replies.
Import EmailIntegration.

(** Case split on the two threading steps of the reply block. *)
Ltac threading_cases :=
  repeat match goal with
    | |- context [match headers_dict ?hs !! "Message-ID" with _ => _ end] =>
        destruct (headers_dict hs !! "Message-ID")
    | |- context [if truthy ?r then set_header _ "References" _ else _] =>
        destruct (truthy r)
    end.

Lemma String_neq_empty c s : String c s = EmptyString -> False.
Proof. discriminate. Qed.

Lemma append_cons x (a b : string) : String x a +:+ b = String x (a +:+ b).
Proof. reflexivity. Qed.

Lemma append_assoc (a b c : string) : (a +:+ b) +:+ c = a +:+ (b +:+ c).
Proof.
  induction a as [|x a IH]; [done |]. rewrite !append_cons. by rewrite IH.
Qed.

(** C4.  For a reply to an original message with Message-ID [M] and
    References chain [R] (empty when the field is absent), the message built
    has In-Reply-To [M] and, as References, [R] followed by [M] with a space
    between them, [M] alone when [R] is empty.  With [M = <abc@x>] and no
    chain the References are [<abc@x>]; with [R = <abc@x>] and [M = <def@y>]
    they are [<abc@x> <def@y>]. *)
Theorem reply_threading
    (svc : GmailService) (to subject text orig : string)
    (hs : list (string * string)) (M : string) :
  truthy orig = true ->
  messages_get_metadata svc orig = Ok hs ->
  headers_dict hs !! "Message-ID" = Some M ->
  M <> EmptyString ->
  let R := default EmptyString (headers_dict hs !! "References") in
  (exists m,
     build_message svc to subject text (Some orig) = Ok m
     /\ get_all m "In-Reply-To" = [M]
     /\ get_all m "References" = [extend_chain R M])
  /\ (exists m,
        build_message (original_with [("Message-ID", "<abc@x>")])
                      to subject text (Some orig) = Ok m
        /\ get_header m "In-Reply-To" = Some "<abc@x>"
        /\ get_header m "References" = Some "<abc@x>")
  /\ (exists m,
        build_message (original_with [("References", "<abc@x>");
                                      ("Message-ID", "<def@y>")])
                      to subject text (Some orig) = Ok m
        /\ get_header m "In-Reply-To" = Some "<def@y>"
        /\ get_header m "References" = Some "<abc@x> <def@y>").
Proof.
  intros Ho Hget HM Hne R.
  assert (Hgen : forall svc' hs' M',
             messages_get_metadata svc' orig = Ok hs' ->
             headers_dict hs' !! "Message-ID" = Some M' ->
             M' <> EmptyString ->
             exists m,
               build_message svc' to subject text (Some orig) = Ok m
               /\ get_all m "In-Reply-To" = [M']
               /\ get_all m "References"
                  = [extend_chain (default EmptyString (headers_dict hs' !! "References")) M']).
  { clear - Ho. intros svc hs M Hget HM Hne.
    destruct orig as [|o orig']; unfold build_message, add_reply_headers.
    - discriminate Ho.
    - rewrite Hget. cbn [bind]. rewrite HM.
      set (R := default EmptyString (headers_dict hs !! "References")).
      assert (Hchain : (if truthy R then R +:+ " " else R) +:+ M = extend_chain R M).
      { destruct R; [done |]. cbn [truthy extend_chain]. apply append_assoc. }
      rewrite Hchain.
      assert (Ht : truthy (extend_chain R M) = true).
      { destruct R; simpl; [by destruct M | done]. }
      rewrite Ht.
      destruct (negb (startswith "Re:" subject)
                && truthy (strip (default EmptyString (headers_dict hs !! "Subject")))) eqn:E.
      + destruct (headers_dict hs !! "Subject") as [s|] eqn:Es.
        * cbn [item bind]. eexists. split; [reflexivity |]. split; reflexivity.
        * rewrite andb_true_iff in E. destruct E as [_ E]. discriminate.
      + cbn [bind]. eexists. split; [reflexivity |]. split; reflexivity. }
  split_and!.
  - by apply Hgen.
  - destruct (Hgen (original_with [("Message-ID", "<abc@x>")]) _ "<abc@x>"
                eq_refl eq_refl ltac:(discriminate)) as (m & Hm & Hi & Hr).
    exists m. unfold get_header. rewrite Hi, Hr. done.
  - destruct (Hgen (original_with [("References", "<abc@x>");
                                   ("Message-ID", "<def@y>")]) _ "<def@y>"
                eq_refl eq_refl ltac:(discriminate)) as (m & Hm & Hi & Hr).
    exists m. unfold get_header. rewrite Hi, Hr. done.
Qed.

Lemma reply_threading_witness :
  truthy "18f3a1" = true
  /\ exists m,
       build_message (original_with [("References", "<abc@x>");
                                     ("Message-ID", "<def@y>")])
                     "alice@example.com" "Re: Budget" "Thanks." (Some "18f3a1")
       = Ok m
       /\ get_all m "In-Reply-To" = ["<def@y>"]
       /\ get_all m "References" = ["<abc@x> <def@y>"].
Proof.
  split; [reflexivity |].
  exact (proj1 (reply_threading
                  (original_with [("References", "<abc@x>");
                                  ("Message-ID", "<def@y>")])
                  "alice@example.com" "Re: Budget" "Thanks." "18f3a1"
                  [("References", "<abc@x>"); ("Message-ID", "<def@y>")]
                  "<def@y>" eq_refl eq_refl eq_refl
                  (fun H => String_neq_empty _ _ H))).
Defined.

(** C5, as amended.  For a reply whose original message is retrieved, the
    subject field written last is: the passed subject when that starts with
    [Re:]; otherwise [Re: ] followed by the subject of the original when the
    original has a subject that is not blank; otherwise the passed subject,
    without prefix.  In the first and in the last case the message has no
    other subject field.  A reply with subject Budget to an original with
    subject Budget gets [Re: Budget] as that field; a reply with subject
    [Re: Budget] keeps it as its only subject, with no second prefix. *)
Theorem reply_subject_rule
    (svc : GmailService) (to subject text orig : string)
    (hs : list (string * string)) :
  truthy orig = true ->
  messages_get_metadata svc orig = Ok hs ->
  let S := default EmptyString (headers_dict hs !! "Subject") in
  (exists m,
     build_message svc to subject text (Some orig) = Ok m
     /\ final_subject m = Some (reply_subject subject S)
     /\ (reply_subject subject S = subject -> get_all m "subject" = [subject]))
  /\ (exists m,
        build_message (original_with [("Message-ID", "<abc@x>"); ("Subject", "Budget")])
                      to "Budget" text (Some orig) = Ok m
        /\ final_subject m = Some "Re: Budget")
  /\ (exists m,
        build_message (original_with [("Message-ID", "<abc@x>"); ("Subject", "Budget")])
                      to "Re: Budget" text (Some orig) = Ok m
        /\ get_all m "subject" = ["Re: Budget"]).
Proof.
  intros Ho Hget S.
  assert (Hgen : forall svc' hs' subject',
             messages_get_metadata svc' orig = Ok hs' ->
             let S' := default EmptyString (headers_dict hs' !! "Subject") in
             exists m,
               build_message svc' to subject' text (Some orig) = Ok m
               /\ final_subject m = Some (reply_subject subject' S')
               /\ (reply_subject subject' S' = subject' ->
                   get_all m "subject" = [subject'])).
  { clear - Ho. intros svc hs subject Hget S.
    destruct orig as [|o orig']; [discriminate Ho |].
    unfold build_message, add_reply_headers, reply_subject.
    rewrite Hget. cbn [bind]. subst S.
    destruct (startswith "Re:" subject) eqn:Hre; cbn [negb andb].
    - cbn [bind]. eexists. split; [reflexivity |].
      split; [| intros _]; threading_cases; reflexivity.
    - destruct (headers_dict hs !! "Subject") as [s|] eqn:Es; cbn [default from_option id].
      + destruct (truthy (strip s)) eqn:Hs; cbn [item bind].
        * eexists. split; [reflexivity |].
          split; [threading_cases; reflexivity |].
          intros Hsame. exfalso. rewrite <- Hsame in Hre. discriminate Hre.
        * eexists. split; [reflexivity |].
          split; [| intros _]; threading_cases; reflexivity.
      + cbn [bind]. eexists. split; [reflexivity |].
        split; [| intros _]; threading_cases; reflexivity. }
  split_and!.
  - by apply Hgen.
  - destruct (Hgen (original_with [("Message-ID", "<abc@x>"); ("Subject", "Budget")])
                _ "Budget" eq_refl) as (m & Hm & Hf & _).
    exists m. split; [exact Hm | exact Hf].
  - destruct (Hgen (original_with [("Message-ID", "<abc@x>"); ("Subject", "Budget")])
                _ "Re: Budget" eq_refl) as (m & Hm & _ & Hall).
    exists m. split; [exact Hm | exact (Hall eq_refl)].
Qed.

End Replies.

Section ReplyExamples.
Import EmailIntegration.

Lemma reply_subject_rule_witness :
  truthy "18f3a1" = true
  /\ exists m,
       build_message (original_with [("Message-ID", "<abc@x>"); ("Subject", "Budget")])
                     "alice@example.com" "Budget" "Thanks." (Some "18f3a1") = Ok m
       /\ final_subject m = Some "Re: Budget".
Proof.
  split; [reflexivity |].
  destruct (proj1 (reply_subject_rule
                     (original_with [("Message-ID", "<abc@x>"); ("Subject", "Budget")])
                     "alice@example.com" "Budget" "Thanks." "18f3a1"
                     [("Message-ID", "<abc@x>"); ("Subject", "Budget")]
                     eq_refl eq_refl))
    as (m & Hm & Hf & _).
  exists m. split; [exact Hm | exact Hf].
Defined.

(** C5 as stated fails: a reply with subject Budget to an original message
    that has no Subject field is built with the single subject Budget, which
    carries no [Re: ] prefix. *)
Lemma reply_subject_without_prefix :
  exists m,
    build_message (original_with [("Message-ID", "<abc@x>")])
                  "alice@example.com" "Budget" "Thanks." (Some "18f3a1") = Ok m
    /\ get_all m "subject" = ["Budget"]
    /\ final_subject m = Some "Budget"
    /\ prefixed_once "Budget" = false.
Proof. eexists. split; [reflexivity |]. split_and!; reflexivity. Qed.

(** A reply with subject Budget to an original whose subject is already
    [Re: Budget] gets [Re: Re: Budget] written last. *)
Lemma reply_to_a_reply_doubles_the_prefix :
  exists m,
    build_message (original_with [("Message-ID", "<abc@x>"); ("Subject", "Re: Budget")])
                  "alice@example.com" "Budget" "Thanks." (Some "18f3a1") = Ok m
    /\ final_subject m = Some "Re: Re: Budget"
    /\ prefixed_once "Re: Re: Budget" = false.
Proof. eexists. split; [reflexivity |]. split; reflexivity. Qed.

(** Writing the subject a second time adds a field; the first one stays and
    is the one that [message['subject']] reads. *)
Lemma reply_subject_written_twice :
  exists m,
    build_message (original_with [("Message-ID", "<abc@x>"); ("Subject", "Budget")])
                  "alice@example.com" "Budget" "Thanks." (Some "18f3a1") = Ok m
    /\ get_all m "subject" = ["Budget"; "Re: Budget"]
    /\ get_header m "subject" = Some "Budget".
Proof. eexists. split; [reflexivity |]. split; reflexivity. Qed.

End ReplyExamples.

(** ** Tag removal *)

Section TagRemoval.
Import EmailIntegration.

Lemma string_length_app (a b : string) :
  String.length (a +:+ b) = (String.length a + String.length b)%nat.
Proof. induction a as [|x a IH]; [done |]. rewrite append_cons. simpl. by rewrite IH. Qed.

(** The lazy tail stops at the first [>], if no [<] comes before it. *)
Lemma lazy_close_spec s n :
  lazy_close s = Some n <->
  exists inner after,
    s = inner +:+ String ">" after
    /\ contains "<" inner = false /\ contains ">" inner = false
    /\ n = S (String.length inner).
Proof.
  revert n. induction s as [|c r IH]; intros n; simpl.
  - split; [done |]. intros (inner & after & Hs & _). by destruct inner.
  - destruct (Ascii.eqb c ">") eqn:Egt.
    + apply Ascii.eqb_eq in Egt as ->. split.
      * intros [= <-]. by exists EmptyString, r.
      * intros (inner & after & Hs & _ & Hgt & ->).
        destruct inner as [|x inner]; [done |].
        rewrite append_cons in Hs. injection Hs as <- _.
        by simpl in Hgt.
    + destruct (Ascii.eqb c "<") eqn:Elt.
      * apply Ascii.eqb_eq in Elt as ->. split; [done |].
        intros (inner & after & Hs & Hlt & _).
        destruct inner as [|x inner]; [done |].
        rewrite append_cons in Hs. injection Hs as <- _.
        by simpl in Hlt.
      * rewrite fmap_Some. split.
        -- intros (k & Hk & ->). apply IH in Hk as (inner & after & -> & Hlt & Hgt & ->).
           exists (String c inner), after.
           rewrite append_cons. simpl. by rewrite Elt, Egt.
        -- intros (inner' & after' & Hs & Hlt' & Hgt' & ->).
           destruct inner' as [|x inner'].
           { simpl in Hs. injection Hs as -> _. by simpl in Egt. }
           rewrite append_cons in Hs. injection Hs as <- Hs.
           simpl in Hlt', Hgt'. rewrite Elt in Hlt'. rewrite Egt in Hgt'.
           exists (S (String.length inner')). split; [| done].
           apply IH. by exists inner', after'.
Qed.

(** Dropping the characters of a match and going on is going on after it. *)
Lemma sub_tags_skip n s :
  sub_tags n s = sub_tags 0 (drop_string n s).
Proof.
  revert s. induction n as [|n IH]; intros s.
  - by destruct s.
  - destruct s as [|c r]; [done |]. simpl. apply IH.
Qed.

Lemma drop_string_app a b :
  drop_string (String.length a) (a +:+ b) = b.
Proof. induction a as [|x a IH]; [by destruct b |]. rewrite append_cons. simpl. exact IH. Qed.

(** A tag, that is [<], one character other than [<], characters other than
    [<] and [>], then [>], is removed. *)
Lemma strip_tags_tag c1 inner after :
  c1 <> "<"%char ->
  contains "<" inner = false -> contains ">" inner = false ->
  strip_tags (String "<" (String c1 (inner +:+ String ">" after)))
  = strip_tags after.
Proof.
  intros Hc Hlt Hgt. unfold strip_tags. simpl.
  apply Ascii.eqb_neq in Hc. rewrite Hc.
  assert (Hk : lazy_close (inner +:+ String ">" after) = Some (S (String.length inner))).
  { apply lazy_close_spec. by exists inner, after. }
  rewrite Hk. simpl. rewrite sub_tags_skip.
  replace (inner +:+ String ">" after) with ((inner +:+ ">") +:+ after)
    by (by rewrite append_assoc).
  replace (S (String.length inner)) with (String.length (inner +:+ ">"))
    by (rewrite string_length_app; simpl; lia).
  by rewrite drop_string_app.
Qed.

(** Any other character is kept. *)
Lemma strip_tags_char c s :
  c <> "<"%char -> strip_tags (String c s) = String c (strip_tags s).
Proof.
  intros Hc. unfold strip_tags. simpl. apply Ascii.eqb_neq in Hc. by rewrite Hc.
Qed.

(** A [<] that opens no tag is kept. *)
Lemma strip_tags_bare s :
  tag_len s = None -> strip_tags (String "<" s) = String "<" (strip_tags s).
Proof. intros H. unfold strip_tags. simpl. by rewrite H. Qed.

Example strip_tags_example :
  strip_tags "a < b > c <> d <>> e < f" = "a  c <> d  e < f".
Proof. reflexivity. Qed.

End TagRemoval.

(** ** Body extraction *)

Section BodyExtraction.
Import EmailIntegration.

Lemma quiet_inv p :
  quiet p ->
  not_text_part p
  /\ (forall l, parts p = Some l -> own_data p = None /\ Forall quiet l).
Proof. by destruct 1. Qed.

(** Induction over a part and the parts it holds. *)
Lemma MessagePart_nested_ind (P : MessagePart -> Prop) :
  (forall m f b ps,
      (forall l, ps = Some l -> Forall P l) -> P (mkPart m f b ps)) ->
  forall p, P p.
Proof.
  intros step. fix IH 1. intros [m f b [l|]]; apply step.
  - assert (HF : Forall P l).
    { induction l as [|c l IHl]; constructor; [apply IH | exact IHl]. }
    intros l' [= <-]. exact HF.
  - intros l' [=].
Qed.

Variable decode : string -> res string.

Lemma get_email_body_unfold p :
  _get_email_body decode p
  = match own_data p with
    | Some d => decode d
    | None =>
        match parts p with
        | Some l => scan_parts decode (_get_email_body decode) l
        | None => Ok no_content
        end
    end.
Proof.
  destruct p as [m f b ps]. unfold own_data. simpl.
  destruct (b ≫= data) as [[|c r]|]; reflexivity.
Qed.

Lemma typed_data_hit mime d p :
  text_part mime d p -> typed_data mime p = Ok (Some d).
Proof.
  intros [Hm Hd]. unfold typed_data, own_data in *. rewrite Hm. simpl.
  rewrite String.eqb_refl.
  destruct (body p) as [b|]; simpl in *; [| done].
  destruct (data b) as [[|c r]|]; simpl in *; congruence.
Qed.

Lemma typed_data_other mime mime' d p :
  text_part mime' d p -> mime' <> mime -> typed_data mime p = Ok None.
Proof.
  intros [Hm _] Hne. unfold typed_data. rewrite Hm. simpl.
  apply String.eqb_neq in Hne. by rewrite Hne.
Qed.

Lemma typed_data_none mime p :
  mime = "text/plain" \/ mime = "text/html" ->
  not_text_part p -> typed_data mime p = Ok None.
Proof.
  intros Hmime (mt & Hm & Hb). unfold typed_data. rewrite Hm. simpl.
  destruct (String.eqb mt mime) eqn:E; [| done].
  apply String.eqb_eq in E as ->.
  destruct (Hb Hmime) as (b & -> & Hd). simpl. by rewrite Hd.
Qed.

Lemma scan_passed_over extract pre rest :
  Forall passed_over pre ->
  scan_parts decode extract (pre ++ rest) = scan_parts decode extract rest.
Proof.
  induction 1 as [|c pre [Hc Hp] _ IH]; [done |].
  simpl. rewrite (typed_data_none "text/plain"), (typed_data_none "text/html") by auto.
  simpl. by rewrite Hp.
Qed.

Lemma quiet_extracts_nothing p :
  own_data p = None ->
  (forall l, parts p = Some l -> Forall quiet l) ->
  _get_email_body decode p = Ok no_content.
Proof.
  induction p as [m f b ps IH] using MessagePart_nested_ind.
  intros Hown Hq. rewrite get_email_body_unfold, Hown. simpl.
  destruct ps as [l|]; [| done].
  specialize (IH l eq_refl). specialize (Hq l eq_refl).
  induction Hq as [|c l Hc Hl IHl]; [done |].
  apply Forall_cons in IH as [IHc IHrest].
  apply quiet_inv in Hc as [Hnt Hsub].
  simpl. rewrite (typed_data_none "text/plain"), (typed_data_none "text/html") by auto.
  simpl. destruct (parts c) as [l'|] eqn:Hp; [| by apply IHl].
  destruct (Hsub l' eq_refl) as [Hown' Hq'].
  rewrite IHc; [done | done |].
  intros l'' Hl''. assert (l'' = l') as -> by congruence. exact Hq'.
Qed.

(** C2, as amended.  A payload that carries body data yields that data,
    decoded, whatever its type.  Otherwise the parts are scanned in order,
    parts without text data and without parts of their own being passed
    over, and the first other part decides: a text/plain part with data
    yields its content unmodified; a text/html part with data yields its
    content with the tags removed (white space stays as it is); a part that
    holds parts yields the text extracted from it, when that is neither
    empty nor the sentinel.  A payload without data whose parts, at every
    depth, carry no text/plain or text/html data yields the sentinel
    [No content found].  The html text [<p>Hi <b>there</b></p>] becomes
    [Hi there]. *)
Theorem body_extraction_order :
  (forall root d, own_data root = Some d -> _get_email_body decode root = decode d)
  /\ (forall root pre p post,
        own_data root = None ->
        parts root = Some (pre ++ p :: post) ->
        Forall passed_over pre ->
        (forall d, text_part "text/plain" d p ->
                   _get_email_body decode root = decode d)
        /\ (forall d, text_part "text/html" d p ->
                      _get_email_body decode root = rmap strip_tags (decode d))
        /\ (forall found,
              not_text_part p -> is_Some (parts p) ->
              _get_email_body decode p = Ok found ->
              found <> EmptyString -> found <> no_content ->
              _get_email_body decode root = Ok found))
  /\ (forall root,
        own_data root = None ->
        (forall l, parts root = Some l -> Forall quiet l) ->
        _get_email_body decode root = Ok no_content)
  /\ strip_tags "<p>Hi <b>there</b></p>" = "Hi there".
Proof.
  split_and!.
  - intros root d Hd. by rewrite get_email_body_unfold, Hd.
  - intros root pre p post Hown Hparts Hpre.
    rewrite get_email_body_unfold, Hown, Hparts, scan_passed_over by done.
    split_and!.
    + intros d Hp. simpl. by rewrite (typed_data_hit _ _ _ Hp).
    + intros d Hp. simpl.
      rewrite (typed_data_other "text/plain" _ _ _ Hp) by done.
      simpl. by rewrite (typed_data_hit _ _ _ Hp).
    + intros found Hnt [l Hl] Hfound Hne _. simpl.
      rewrite (typed_data_none "text/plain"), (typed_data_none "text/html") by auto.
      simpl. rewrite Hl, Hfound. simpl. by destruct found.
  - apply quiet_extracts_nothing.
  - reflexivity.
Qed.

End BodyExtraction.

Section BodyExamples.
Import EmailIntegration.

Lemma body_extraction_order_witness :
  own_data (container "multipart/mixed"
              [leaf "image/png" "iVBORw=="; leaf "text/html" html_data]) = None
  /\ Forall passed_over [leaf "image/png" "iVBORw=="]
  /\ text_part "text/html" html_data (leaf "text/html" html_data)
  /\ _get_email_body b64_text
       (container "multipart/mixed"
          [leaf "image/png" "iVBORw=="; leaf "text/html" html_data])
     = Ok "Hi there".
Proof.
  assert (Hpre : Forall passed_over [leaf "image/png" "iVBORw=="]).
  { constructor; [| constructor]. split; [| reflexivity].
    exists "image/png". split; [reflexivity |]. intros [H | H]; discriminate H. }
  assert (Hhtml : text_part "text/html" html_data (leaf "text/html" html_data)).
  { split; reflexivity. }
  split_and!; [reflexivity | exact Hpre | exact Hhtml |].
  destruct (proj1 (proj2 (body_extraction_order b64_text))
              (container "multipart/mixed"
                 [leaf "image/png" "iVBORw=="; leaf "text/html" html_data])
              [leaf "image/png" "iVBORw=="] (leaf "text/html" html_data) []
              eq_refl eq_refl Hpre)
    as (_ & Hrule & _).
  exact (Hrule html_data Hhtml).
Defined.

(** C2 as stated fails: with a text/html part placed before a text/plain
    part, the html part decides; the plain content is not what is returned. *)
Lemma html_part_before_plain_part_wins :
  _get_email_body b64_text
    (container "multipart/mixed"
       [leaf "text/html" html_data; leaf "text/plain" plain_data])
  = Ok "Hi there"
  /\ b64_text plain_data = Ok "Hi there, plainly.".
Proof. split; reflexivity. Qed.

(** White space between the tags is kept as it is. *)
Lemma tags_removed_spaces_kept :
  _get_email_body b64_text
    (container "multipart/alternative" [leaf "text/html" spaced_html_data])
  = Ok "Hi  there".
Proof. reflexivity. Qed.

(** A message whose only part is html, carried by the payload itself, comes
    back with its tags. *)
Lemma single_part_html_keeps_tags :
  _get_email_body b64_text (leaf "text/html" html_data)
  = Ok "<p>Hi <b>there</b></p>".
Proof. reflexivity. Qed.

(** The sentinel of a nested part without text is a non-empty text, so it is
    returned at once and a text part that follows is never looked at. *)
Lemma sentinel_hides_later_text :
  _get_email_body b64_text
    (container "multipart/mixed"
       [container "multipart/related" [leaf "image/png" "iVBORw=="];
        leaf "text/plain" plain_data])
  = Ok "No content found".
Proof. reflexivity. Qed.

End BodyExamples.

(** ** Free slots *)

Section FreeSlots.
Import CalendarIntegration.

(** The start of a timed event that carries an offset cannot be subtracted
    from the naive window start: the loop raises on the first such event. *)
Lemma walk_events_aware_start duration_minutes event rest current_time free_slots
    st start_text start_time offset :
  ev_start event = Some st ->
  st !! "dateTime" = Some start_text ->
  truthy start_text = true ->
  fromisoformat (replace_Z start_text) = Ok start_time ->
  tzinfo start_time = Some offset ->
  tzinfo current_time = None ->
  walk_events duration_minutes (event :: rest) current_time free_slots
  = Raise TypeError.
Proof.
  intros Hst Hdt Ht Hparse Htz Hcur. simpl. rewrite Hst. simpl. rewrite Hdt.
  destruct start_text as [|c r]; [discriminate Ht |].
  rewrite Hparse. simpl. unfold sub_seconds. by rewrite Htz, Hcur.
Qed.

(** So whenever the first event listed is a timed one whose start carries an
    offset, no slot is returned, whatever the day and the duration asked. *)
Lemma aware_first_event_no_slots svc date_str date_obj duration_minutes
    event rest st start_text start_time offset :
  strptime_ymd date_str = Ok date_obj ->
  events_list svc (isoformat (combine date_obj 9) +:+ "Z")
                  (isoformat (combine date_obj 17) +:+ "Z") = Ok (event :: rest) ->
  ev_start event = Some st ->
  st !! "dateTime" = Some start_text ->
  truthy start_text = true ->
  fromisoformat (replace_Z start_text) = Ok start_time ->
  tzinfo start_time = Some offset ->
  get_available_slots svc date_str duration_minutes = [].
Proof.
  intros Hd Hl Hst Hdt Ht Hp Htz.
  unfold get_available_slots, available_slots_body.
  rewrite Hd. cbn [bind]. rewrite Hl. cbn [bind].
  by rewrite (walk_events_aware_start _ _ _ _ _ _ _ _ _ Hst Hdt Ht Hp Htz).
Qed.

(** A text that ends in an offset reads as an aware value. *)
Example fromisoformat_offset :
  fromisoformat (replace_Z "2024-05-01T10:00:00Z")
  = Ok (mkDT 2024 5 1 10 0 0 (Some 0))
  /\ fromisoformat "2024-05-01T10:00:00+05:30"
     = Ok (mkDT 2024 5 1 10 0 0 (Some 19800))
  /\ fromisoformat "2024-05-01T10:00:00" = Ok (mkDT 2024 5 1 10 0 0 None).
Proof. split_and!; vm_compute; reflexivity. Qed.

(** C6.  What the code does on the example of the claim.  With the one event
    given by the provider in RFC 3339 form (a [Z] or an offset at the end of
    its [dateTime]), no slot is returned at all; only when the texts carry no
    offset are the two slots 09:00-10:00 and 10:30-17:00 found. *)
Theorem available_slots_with_one_event :
  get_available_slots
    (calendar_with [timed_event "UTC" "2024-05-01T10:00:00Z" "2024-05-01T10:30:00Z"])
    "2024-05-01" 60 = []
  /\ get_available_slots
       (calendar_with [timed_event "Asia/Kolkata" "2024-05-01T10:00:00+05:30"
                                   "2024-05-01T10:30:00+05:30"])
       "2024-05-01" 60 = []
  /\ get_available_slots
       (calendar_with [timed_event "Asia/Kolkata" "2024-05-01T10:00:00"
                                   "2024-05-01T10:30:00"])
       "2024-05-01" 60
     = [mkSlot "09:00" "10:00"; mkSlot "10:30" "17:00"].
Proof. split_and!; vm_compute; reflexivity. Qed.

(** The request that goes to the provider on that day. *)
Example available_slots_request :
  available_slots_body
    (mkCalendar (fun time_min time_max =>
                   if String.eqb time_min "2024-05-01T09:00:00Z"
                      && String.eqb time_max "2024-05-01T17:00:00Z"
                   then Ok [] else Raise ProviderError))
    "2024-05-01" 60
  = Ok [mkSlot "09:00" "17:00"].
Proof. vm_compute. reflexivity. Qed.

End FreeSlots.

(* ===================================================================== *)
(** * Further properties of the code *)
(* ===================================================================== *)

(** ** The record store: lookups and listings *)

Section StoreLookups.
Import MemoryManager.

Lemma filter_id_fresh (l : list Email.t) id :
  id ∉ Email.id <$> l -> filter (fun e => Email.id e = id) l = [].
Proof.
  induction l as [|x l IH]; intros Hid; [done |].
  rewrite fmap_cons in Hid. apply not_elem_of_cons in Hid as [Hx Hl].
  rewrite filter_cons_False by congruence. by apply IH.
Qed.

Lemma filter_id_NoDup (l : list Email.t) e :
  NoDup (Email.id <$> l) -> e ∈ l ->
  filter (fun x => Email.id x = Email.id e) l = [e].
Proof.
  induction l as [|x l IH]; intros Hnd Hin; [by apply elem_of_nil in Hin |].
  rewrite fmap_cons in Hnd. apply NoDup_cons in Hnd as [Hx Hl].
  apply elem_of_cons in Hin as [-> | Hin].
  - rewrite filter_cons_True by done. by rewrite filter_id_fresh.
  - rewrite filter_cons_False; [by apply IH |].
    intros Heq. apply Hx. rewrite Heq. apply list_elem_of_fmap. by exists e.
Qed.

(** X1.  An email that [save_email] has stored is what [get_email_by_id]
    returns for its id, and the lookups of all other ids are as before. *)
Theorem saved_email_is_found (now : Z) (d d' : db) (e : EmailData) (r : Email.t) :
  save_email now d e = Ok (r, d') ->
  get_email_by_id d' (ed_id e) = Some r
  /\ forall id', id' <> ed_id e -> get_email_by_id d' id' = get_email_by_id d id'.
Proof.
  intros (-> & Hfresh & Hrows & _)%save_email_inv.
  change (ed_id e ∉ Email.id <$> emails d) in Hfresh.
  unfold get_email_by_id. rewrite Hrows. split.
  - rewrite filter_app, (filter_id_fresh _ _ Hfresh).
    by rewrite filter_cons_True.
  - intros id' Hne. rewrite filter_app, filter_cons_False, filter_nil, app_nil_r; [done |].
    simpl. congruence.
Qed.

Global Instance timestamp_ge_total : Total timestamp_ge.
Proof. intros a b. unfold timestamp_ge. lia. Qed.

Global Instance timestamp_ge_trans : Transitive timestamp_ge.
Proof. intros a b c. unfold timestamp_ge. lia. Qed.

Lemma get_all_emails_prefix d limit :
  0 <= limit ->
  exists rest,
    merge_sort timestamp_ge (emails d) = get_all_emails d limit ++ rest
    /\ StronglySorted timestamp_ge (get_all_emails d limit ++ rest).
Proof.
  intros Hl. unfold get_all_emails.
  assert ((limit <? 0) = false) as -> by lia.
  exists (drop (Z.to_nat limit) (merge_sort timestamp_ge (emails d))).
  rewrite take_drop. split; [done |].
  apply StronglySorted_merge_sort; apply _.
Qed.

(** X2.  For a limit that is not negative, [get_all_emails] returns at most
    [limit] rows, all of them stored, newest first, and no stored row that is
    left out is newer than a row returned. *)
Theorem get_all_emails_newest_first (d : db) (limit : Z) :
  0 <= limit ->
  Z.of_nat (length (get_all_emails d limit))
  = Z.min limit (Z.of_nat (length (emails d)))
  /\ StronglySorted timestamp_ge (get_all_emails d limit)
  /\ (forall e, e ∈ get_all_emails d limit -> e ∈ emails d)
  /\ (forall kept e,
        kept ∈ get_all_emails d limit -> e ∈ emails d ->
        e ∉ get_all_emails d limit ->
        Email.timestamp e <= Email.timestamp kept).
Proof.
  intros Hl. destruct (get_all_emails_prefix d limit Hl) as (rest & Hsplit & Hsorted).
  assert (Hperm : get_all_emails d limit ++ rest ≡ₚ emails d).
  { rewrite <- Hsplit. apply merge_sort_Permutation. }
  split_and!.
  - unfold get_all_emails. assert ((limit <? 0) = false) as -> by lia.
    rewrite length_take.
    assert (length (merge_sort timestamp_ge (emails d)) = length (emails d)) as ->.
    { apply Permutation_length, merge_sort_Permutation. }
    lia.
  - by apply StronglySorted_app_1_l in Hsorted.
  - intros e He. rewrite <- Hperm. apply elem_of_app. by left.
  - intros kept e Hk He Hout.
    rewrite <- Hperm in He. apply elem_of_app in He as [He | He]; [done |].
    exact (StronglySorted_app_1_elem_of _ _ _ _ _ Hsorted Hk He).
Qed.

Lemma get_all_emails_stored d limit e :
  e ∈ get_all_emails d limit -> e ∈ emails d.
Proof.
  unfold get_all_emails. intros He.
  assert (Hin : e ∈ merge_sort timestamp_ge (emails d)).
  { destruct (limit <? 0); [done |]. by apply (subseteq_take (Z.to_nat limit)). }
  by rewrite merge_sort_Permutation in Hin.
Qed.

(** X3.  Every email that the Inbox lists (whatever the limit) is found again
    by [get_email_by_id] under its id, as long as the stored ids are
    distinct, which [save_email] maintains. *)
Theorem listed_email_resolves (d : db) (limit : Z) (e : Email.t) :
  NoDup (Email.id <$> emails d) ->
  e ∈ get_all_emails d limit ->
  get_email_by_id d (Email.id e) = Some e.
Proof.
  intros Hnd He. apply get_all_emails_stored in He.
  unfold get_email_by_id. by rewrite (filter_id_NoDup _ _ Hnd He).
Qed.

End StoreLookups.

(** ** Ingest *)

Section Ingest.
Import MemoryManager EmailIntegration.

Lemma insert_row_raise {A} (pk : A -> string) table row e :
  insert_row pk table row = Raise e -> e = IntegrityError.
Proof. unfold insert_row. case_bool_decide; [by intros [= <-] | done]. Qed.

Lemma save_email_raise now d x e :
  save_email now d x = Raise e -> e = IntegrityError.
Proof.
  unfold save_email.
  destruct (insert_row _ _ _) eqn:E; simpl; [done |].
  intros [= <-]. by apply insert_row_raise in E.
Qed.

Lemma save_attachments_inv l : forall d,
  match save_attachments d l with
  | Ok d' => emails d' = emails d /\ responses d' = responses d
  | Raise e => e = IntegrityError
  end.
Proof.
  induction l as [|a l IH]; intros d; simpl; [done |].
  unfold save_attachment.
  destruct (insert_row _ _ _) as [t|e] eqn:E; simpl.
  - specialize (IH (mkDb (emails d) t (responses d))).
    by destruct (save_attachments _ l).
  - by apply insert_row_raise in E.
Qed.

(** What a run of the loop leaves behind, or how it ends. *)
Lemma ingest_inv _parse_email now ms : forall seen d,
  match ingest _parse_email now ms seen d with
  | Ok (got, d') =>
      got = seen ++ omap _parse_email ms
      /\ emails d' = emails d ++ (email_row now <$> omap _parse_email ms)
      /\ responses d' = responses d
      /\ (NoDup (Email.id <$> emails d) -> NoDup (Email.id <$> emails d'))
  | Raise e => e = IntegrityError
  end.
Proof.
  induction ms as [|id ms IH]; intros seen d; simpl.
  - by rewrite !app_nil_r.
  - destruct (_parse_email id) as [x|] eqn:Hp; [| apply IH].
    destruct (save_email now d x) as [[r d1]|e] eqn:Hs; simpl;
      [| by apply save_email_raise in Hs].
    pose proof (save_attachments_inv (ed_attachments x) d1) as Ha.
    destruct (save_attachments d1 (ed_attachments x)) as [d2|e]; simpl; [| done].
    destruct Ha as [Hae Har].
    apply save_email_inv in Hs as Hinv. destruct Hinv as (-> & Hfresh & Hrows & _ & Hresp).
    specialize (IH (seen ++ [x]) d2).
    destruct (ingest _parse_email now ms (seen ++ [x]) d2) as [[got d']|e]; [| done].
    destruct IH as (-> & Hrows' & Hresp' & Hnd').
    split_and!.
    + by rewrite <- app_assoc.
    + rewrite Hrows', Hae, Hrows, <- app_assoc. done.
    + congruence.
    + intros Hd. apply Hnd'. rewrite Hae.
      exact (save_email_NoDup _ _ _ _ _ Hd Hs).
Qed.

(** X4.  When [get_emails] returns, it returns the listed messages that could
    be parsed, in the order of the listing, and it has stored exactly these,
    after the rows that were there; the responses are untouched, and stored
    ids that were distinct stay distinct. *)
Theorem get_emails_stores_what_it_returns
    (svc : GmailService) (_parse_email : string -> option EmailData)
    (now max_results : Z) (d d' : db) (got : list EmailData) :
  get_emails svc _parse_email now max_results d = Ok (got, d') ->
  exists messages,
    messages_list svc max_results = Ok messages
    /\ got = omap _parse_email messages
    /\ emails d' = emails d ++ (email_row now <$> got)
    /\ responses d' = responses d
    /\ (NoDup (Email.id <$> emails d) -> NoDup (Email.id <$> emails d')).
Proof.
  unfold get_emails.
  destruct (messages_list svc max_results) as [ms|] eqn:Hl; simpl; [| done].
  pose proof (ingest_inv _parse_email now ms [] d) as Hinv.
  intros Hrun. rewrite Hrun in Hinv. destruct Hinv as (-> & Hrows & Hresp & Hnd).
  exists ms. done.
Qed.

Lemma ingest_app _parse_email now ms1 ms2 : forall seen d,
  ingest _parse_email now (ms1 ++ ms2) seen d
  = match ingest _parse_email now ms1 seen d with
    | Ok (got, d1) => ingest _parse_email now ms2 got d1
    | Raise e => Raise e
    end.
Proof.
  induction ms1 as [|id ms1 IH]; intros seen d; simpl; [done |].
  destruct (_parse_email id) as [x|]; [| apply IH].
  destruct (save_email now d x) as [[r d1]|e]; simpl; [| done].
  destruct (save_attachments d1 (ed_attachments x)) as [d2|e]; simpl; [| done].
  apply IH.
Qed.

(** X5.  Whenever the listing holds a message that parses to an id that is
    stored already, [get_emails] raises [IntegrityError], wherever in the
    listing the message stands. *)
Theorem get_emails_stored_message_raises
    (svc : GmailService) (_parse_email : string -> option EmailData)
    (now max_results : Z) (d : db) (messages : list string)
    (message_id : string) (e : EmailData) :
  messages_list svc max_results = Ok messages ->
  message_id ∈ messages ->
  _parse_email message_id = Some e ->
  ed_id e ∈ Email.id <$> emails d ->
  get_emails svc _parse_email now max_results d = Raise IntegrityError.
Proof.
  intros Hl Hin Hp Hstored. unfold get_emails. rewrite Hl. simpl.
  apply list_elem_of_split in Hin as (pre & post & ->).
  rewrite ingest_app.
  pose proof (ingest_inv _parse_email now pre [] d) as Hinv.
  destruct (ingest _parse_email now pre [] d) as [[got d1]|e0]; [| by rewrite Hinv].
  destruct Hinv as (_ & Hrows & _).
  apply (ingest_stored_id_raises _ _ _ _ e); [done |].
  rewrite Hrows, fmap_app. apply elem_of_app. by left.
Qed.

End Ingest.

(** ** Reading a message *)

Section ParseEmail.
Import MemoryManager EmailIntegration.

(** What the attachment loop adds: one record per part that refers to an
    attachment, each for the message at hand, its size the length of its
    data; the loop stops at the first download that fails. *)
Lemma collect_attachments_inv reader uuid4 message_id l : forall acc,
  match collect_attachments reader uuid4 message_id l acc with
  | Ok out =>
      exists added,
        out = acc ++ added
        /\ length added = length (omap attachment_ref l)
        /\ Forall (fun a => ad_email_id a = message_id
                            /\ ad_size a = Z.of_nat (String.length (ad_data a)))
                  added
        /\ Forall (fun a => is_Some (attachments_get_ok reader message_id a))
                  (omap attachment_ref l)
  | Raise _ => True
  end.
Proof.
  induction l as [|part l IH]; intros acc; simpl.
  - exists []. by rewrite app_nil_r.
  - destruct (attachment_ref part) as [aid|] eqn:Href; [| apply IH].
    simpl. unfold attachments_get_ok at 1.
    destruct (attachments_get reader message_id aid) as [att|] eqn:Hget; simpl; [| done].
    destruct (filename part) as [name|]; simpl; [| done].
    destruct (mimeType part) as [ct|]; simpl; [| done].
    match goal with |- context [collect_attachments _ _ _ l ?acc'] =>
      specialize (IH acc'); destruct (collect_attachments reader uuid4 message_id l acc')
        as [out|]; [| done] end.
    destruct IH as (added & -> & Hlen & Hall & Hok).
    eexists (_ :: added). split_and!.
    + by rewrite <- app_assoc.
    + simpl. by rewrite Hlen.
    + constructor; [done | exact Hall].
    + constructor; [| exact Hok]. unfold attachments_get_ok. by rewrite Hget.
Qed.

Lemma parsed_email_invariants_id env reader message_id e :
  _parse_email env reader message_id = Some e -> ed_id e = message_id.
Proof.
  unfold _parse_email, parse_email_body.
  destruct (messages_get reader message_id) as [message|]; simpl; [| done].
  destruct (payload message) as [pl|]; simpl; [| done].
  destruct (payload_headers message) as [hs|]; simpl; [| done].
  destruct (_get_email_body (env_decode env) pl) as [text|]; simpl; [| done].
  destruct (match parts pl with Some l => _ | None => _ end) as [out|]; simpl; [| done].
  by intros [= <-].
Qed.

(** X6.  A dictionary that [_parse_email] returns carries the id it was asked
    for, a time stamp, the thread id of the message (the message id when the
    message has none); its attachments are those of the top-level parts that
    name a file and an attachment id, each recorded for this message with
    the length of its data as size, and [has_attachment] tells whether there
    is one. *)
Theorem parsed_email_invariants
    (env : ParseEnv) (reader : GmailReader) (message_id : string) (e : EmailData) :
  _parse_email env reader message_id = Some e ->
  exists message pl,
    messages_get reader message_id = Ok message
    /\ payload message = Some pl
    /\ ed_id e = message_id
    /\ ed_thread_id e = default message_id (threadId message)
    /\ is_Some (ed_timestamp e)
    /\ _get_email_body (env_decode env) pl = Ok (ed_body e)
    /\ length (ed_attachments e)
       = length (omap attachment_ref (default [] (parts pl)))
    /\ Forall (fun a => ad_email_id a = message_id
                        /\ ad_size a = Z.of_nat (String.length (ad_data a)))
              (ed_attachments e)
    /\ ed_has_attachment e = Some (bool_decide (ed_attachments e <> [])).
Proof.
  unfold _parse_email, parse_email_body.
  destruct (messages_get reader message_id) as [message|] eqn:Hm; simpl; [| done].
  destruct (payload message) as [pl|] eqn:Hpl; simpl; [| done].
  destruct (payload_headers message) as [hs|]; simpl; [| done].
  destruct (_get_email_body (env_decode env) pl) as [text|] eqn:Htext; simpl; [| done].
  assert (Hatt :
    match (match parts pl with
           | Some l => collect_attachments reader (env_uuid4 env) message_id l []
           | None => Ok []
           end) with
    | Ok out =>
        length out = length (omap attachment_ref (default [] (parts pl)))
        /\ Forall (fun a => ad_email_id a = message_id
                            /\ ad_size a = Z.of_nat (String.length (ad_data a))) out
    | Raise _ => True
    end).
  { destruct (parts pl) as [l|]; simpl; [| done].
    pose proof (collect_attachments_inv reader (env_uuid4 env) message_id l []) as H.
    destruct (collect_attachments _ _ _ l []) as [out|]; [| done].
    by destruct H as (added & -> & Hlen & Hall & _). }
  destruct (match parts pl with Some l => _ | None => _ end) as [out|]; simpl; [| done].
  destruct Hatt as [Hlen Hall].
  intros [= <-]. exists message, pl. simpl.
  split_and!; try done.
  by destruct out.
Qed.

(** X7.  One attachment that cannot be downloaded loses the whole message:
    [_parse_email] returns [None]. *)
Theorem failed_attachment_drops_message
    (env : ParseEnv) (reader : GmailReader) (message_id : string)
    (message : Message) (pl part : MessagePart) (l : list MessagePart)
    (attachment_id : string) (e : exn) :
  messages_get reader message_id = Ok message ->
  payload message = Some pl ->
  parts pl = Some l ->
  part ∈ l ->
  attachment_ref part = Some attachment_id ->
  attachments_get reader message_id attachment_id = Raise e ->
  _parse_email env reader message_id = None.
Proof.
  intros Hm Hpl Hparts Hin Href Hget.
  destruct (_parse_email env reader message_id) as [x|] eqn:Hx; [| done].
  exfalso. unfold _parse_email, parse_email_body in Hx.
  rewrite Hm in Hx. simpl in Hx. rewrite Hpl in Hx. simpl in Hx.
  destruct (payload_headers message) as [hs|]; simpl in Hx; [| done].
  destruct (_get_email_body (env_decode env) pl) as [text|]; simpl in Hx; [| done].
  rewrite Hparts in Hx.
  pose proof (collect_attachments_inv reader (env_uuid4 env) message_id l []) as H.
  destruct (collect_attachments _ _ _ l []) as [out|]; [| done].
  destruct H as (added & _ & _ & _ & Hok).
  rewrite Forall_forall in Hok.
  assert (Hmem : attachment_id ∈ omap attachment_ref l).
  { apply list_elem_of_omap. by exists part. }
  destruct (Hok _ Hmem) as [v Hv]. unfold attachments_get_ok in Hv.
  by rewrite Hget in Hv.
Qed.

(** X8.  With the code's own parser: when a listed message can still be read
    and its id is stored already, [get_emails] raises [IntegrityError]; a
    second refresh over an unchanged inbox cannot succeed once one message
    was stored. *)
Theorem refresh_of_stored_message_raises
    (env : ParseEnv) (reader : GmailReader) (svc : GmailService)
    (now max_results : Z) (d : db) (messages : list string) (message_id : string) :
  messages_list svc max_results = Ok messages ->
  message_id ∈ messages ->
  is_Some (_parse_email env reader message_id) ->
  message_id ∈ Email.id <$> emails d ->
  get_emails svc (_parse_email env reader) now max_results d
  = Raise IntegrityError.
Proof.
  intros Hl Hin [e He] Hstored.
  apply (get_emails_stored_message_raises _ _ _ _ _ messages message_id e);
    try done.
  destruct (parsed_email_invariants_id env reader message_id e He). done.
Qed.

End ParseEmail.

(** ** Header fields and sending *)

Section Sending.
Import EmailIntegration.

Lemma header_value_first name hs :
  header_value name hs = snd <$> head (filter (fun h => fst h = name) hs).
Proof.
  induction hs as [|h hs IH]; [done |]. simpl.
  destruct (String.eqb (fst h) name) eqn:E.
  - apply String.eqb_eq in E. by rewrite filter_cons_True.
  - apply String.eqb_neq in E. by rewrite filter_cons_False.
Qed.

Lemma headers_fold_last name hs : forall d : gmap string string,
  foldl (fun d h => <[fst h := snd h]> d) d hs !! name
  = match last (filter (fun h => fst h = name) hs) with
    | Some h => Some (snd h)
    | None => d !! name
    end.
Proof.
  induction hs as [|h hs IH]; intros d; [done |]. simpl. rewrite IH.
  destruct (decide (fst h = name)) as [Heq | Hne].
  - rewrite filter_cons_True by done.
    destruct (filter (fun h => fst h = name) hs) as [|x l] eqn:Hf; simpl.
    + rewrite <- Heq. apply lookup_insert_eq.
    + change (last (h :: x :: l)) with (last (x :: l)).
      destruct (last (x :: l)) eqn:El; [done |]. by apply last_None in El.
  - rewrite filter_cons_False by done.
    destruct (last _); [done |]. by rewrite lookup_insert_ne.
Qed.

(** X9.  When a header field occurs more than once, [_parse_email] reads its
    first occurrence and [send_email] (through its dictionary of the
    original's fields) its last; names are compared exactly. *)
Theorem repeated_header_first_and_last (name : string) (hs : list (string * string)) :
  header_value name hs = snd <$> head (filter (fun h => fst h = name) hs)
  /\ headers_dict hs !! name = snd <$> last (filter (fun h => fst h = name) hs).
Proof.
  split; [apply header_value_first |].
  unfold headers_dict. rewrite headers_fold_last.
  destruct (last _); [done | apply lookup_empty].
Qed.

(** X10.  When the fields retrieved for the original hold no field named
    exactly [Message-ID], the reply is built without In-Reply-To, and its
    References are those of the original, if it has any. *)
Theorem reply_without_message_id
    (svc : GmailService) (to subject text orig : string)
    (hs : list (string * string)) :
  truthy orig = true ->
  messages_get_metadata svc orig = Ok hs ->
  headers_dict hs !! "Message-ID" = None ->
  exists m,
    build_message svc to subject text (Some orig) = Ok m
    /\ get_all m "In-Reply-To" = []
    /\ get_all m "References"
       = match headers_dict hs !! "References" with
         | Some (String c r) => [String c r]
         | _ => []
         end.
Proof.
  intros Ho Hget Hmid.
  destruct orig as [|o orig']; [discriminate Ho |].
  unfold build_message, add_reply_headers. rewrite Hget. cbn [bind]. rewrite Hmid.
  destruct (headers_dict hs !! "References") as [[|c r]|]; cbn [default from_option id truthy];
    (destruct (negb (startswith "Re:" subject)
               && truthy (strip (default EmptyString (headers_dict hs !! "Subject")))) eqn:E;
     [ destruct (headers_dict hs !! "Subject") as [s|] eqn:Es;
       [ cbn [item bind]; eexists; split; [reflexivity |]; split; reflexivity
       | rewrite andb_true_iff in E; destruct E as [_ E]; discriminate ]
     | cbn [bind]; eexists; split; [reflexivity |]; split; reflexivity ]).
Qed.

(** X11.  A reply whose original cannot be retrieved is not sent: [send_email]
    returns [False] whatever the send call of the provider would answer. *)
Theorem reply_without_original_is_not_sent
    (svc : GmailService) (to subject text orig : string) (e : exn)
    (send : MimeMessage -> res string) :
  truthy orig = true ->
  messages_get_metadata svc orig = Raise e ->
  build_message svc to subject text (Some orig) = Raise e
  /\ send_email (mkGmail (messages_list svc) (messages_get_metadata svc) send)
                to subject text (Some orig) = false.
Proof.
  intros Ho Hget. destruct orig as [|o orig']; [discriminate Ho |].
  unfold send_email, build_message, add_reply_headers. simpl. by rewrite Hget.
Qed.

End Sending.

(** ** More on tags and body extraction *)

Section BodyEdges.
Import EmailIntegration.

Lemma sub_tags_length s : forall n,
  (String.length (sub_tags n s) <= String.length s)%nat.
Proof.
  induction s as [|c r IH]; intros n; simpl; [done |].
  destruct n as [|k].
  - destruct (Ascii.eqb c "<").
    + destruct (tag_len r) as [m|]; simpl.
      * specialize (IH m). lia.
      * specialize (IH 0%nat). lia.
    + simpl. specialize (IH 0%nat). lia.
  - specialize (IH k). lia.
Qed.

Lemma sub_tags_plain s : contains "<" s = false -> sub_tags 0 s = s.
Proof.
  induction s as [|c r IH]; simpl; [done |].
  destruct (Ascii.eqb c "<"); [done |]. intros H. by rewrite IH.
Qed.

(** X13.  Tag removal never makes a text longer, and leaves a text without
    [<] as it is. *)
Theorem strip_tags_shrinks (s : string) :
  (String.length (strip_tags s) <= String.length s)%nat
  /\ (contains "<" s = false -> strip_tags s = s).
Proof. split; [apply sub_tags_length | apply sub_tags_plain]. Qed.

Variable decode : string -> res string.

(** X14.  Once the scan meets a part that holds parts but nothing to extract,
    the sentinel is the result, whatever parts come after it. *)
Theorem quiet_container_ends_the_search
    (root p : MessagePart) (pre post : list MessagePart) :
  own_data root = None ->
  parts root = Some (pre ++ p :: post) ->
  Forall passed_over pre ->
  quiet p -> is_Some (parts p) ->
  _get_email_body decode root = Ok no_content.
Proof.
  intros Hown Hparts Hpre Hq [l Hl].
  rewrite get_email_body_unfold, Hown, Hparts, scan_passed_over by done.
  apply quiet_inv in Hq as [Hnt Hsub]. destruct (Hsub l Hl) as [Hown' Hql].
  simpl. rewrite (typed_data_none "text/plain"), (typed_data_none "text/html") by auto.
  simpl. rewrite Hl.
  rewrite (quiet_extracts_nothing decode p Hown'); [done |].
  intros l' Hl'. assert (l' = l) as -> by congruence. exact Hql.
Qed.

(** X15.  The first part that is not passed over makes the extraction raise
    [KeyError] when it has no [mimeType], or when it is of type text/plain
    and has no [body]. *)
Theorem malformed_part_raises
    (root p : MessagePart) (pre post : list MessagePart) :
  own_data root = None ->
  parts root = Some (pre ++ p :: post) ->
  Forall passed_over pre ->
  mimeType p = None \/ (mimeType p = Some "text/plain" /\ body p = None) ->
  _get_email_body decode root = Raise KeyError.
Proof.
  intros Hown Hparts Hpre Hbad.
  rewrite get_email_body_unfold, Hown, Hparts, scan_passed_over by done.
  simpl. unfold typed_data.
  destruct Hbad as [-> | [-> ->]]; reflexivity.
Qed.

End BodyEdges.

(** ** White space *)

Section WhiteSpace.

Lemma append_nil_r (s : string) : s +:+ EmptyString = s.
Proof. induction s as [|c s IH]; [done |]. by rewrite append_cons, IH. Qed.

Lemma lstrip_head s :
  match lstrip s with
  | EmptyString => True
  | String c _ => isspace c = false
  end.
Proof.
  induction s as [|c r IH]; simpl; [done |].
  destruct (isspace c) eqn:E; [exact IH | exact E].
Qed.

Lemma rstrip_idem s : rstrip (rstrip s) = rstrip s.
Proof.
  induction s as [|c r IH]; [done |]. simpl.
  destruct (rstrip r) as [|x r'] eqn:Er.
  - destruct (isspace c) eqn:E; [done |]. simpl. by rewrite E.
  - simpl. simpl in IH. by rewrite IH.
Qed.

Lemma rstrip_keeps_head c r :
  isspace c = false -> exists r', rstrip (String c r) = String c r'.
Proof.
  intros E. simpl. destruct (rstrip r); [rewrite E |]; by eexists.
Qed.

(** Stripping twice is stripping once. *)
Lemma strip_idem s : strip (strip s) = strip s.
Proof.
  unfold strip. pose proof (lstrip_head s) as Hh.
  destruct (lstrip s) as [|c r]; [done |].
  destruct (rstrip_keeps_head c r Hh) as [r' Hr]. rewrite Hr.
  simpl lstrip. rewrite Hh. rewrite <- Hr. apply rstrip_idem.
Qed.

Lemma split_ws_from_word w : forall acc,
  no_space w = true ->
  split_ws_from acc w
  = match acc +:+ w with EmptyString => [] | word => [word] end.
Proof.
  induction w as [|c r IH]; intros acc Hw; simpl.
  - rewrite append_nil_r. by destruct acc.
  - simpl in Hw. apply andb_true_iff in Hw as [Hc Hr].
    apply negb_true_iff in Hc. rewrite Hc, (IH _ Hr), append_assoc. done.
Qed.

(** The words that [split()] gives are not empty and hold no white space. *)
Lemma split_ws_from_words s : forall acc,
  no_space acc = true ->
  Forall (fun w => w <> EmptyString /\ no_space w = true) (split_ws_from acc s).
Proof.
  assert (Hsnoc : forall acc c, no_space acc = true -> isspace c = false ->
                    no_space (acc +:+ String c EmptyString) = true).
  { intros acc c Ha Hc. induction acc as [|x acc IHa]; simpl.
    - by rewrite Hc.
    - simpl in Ha. apply andb_true_iff in Ha as [Hx Ha]. by rewrite Hx, IHa. }
  induction s as [|c r IH]; intros acc Hacc; simpl.
  - destruct acc; [constructor |]. by repeat constructor.
  - destruct (isspace c) eqn:Hc.
    + destruct acc as [|x acc]; [by apply IH |].
      constructor; [done | by apply IH].
    + apply IH. by apply Hsnoc.
Qed.

(** A character that a text lacks is in none of its pieces, stripped or not. *)
Lemma contains_lstrip c s : contains c s = false -> contains c (lstrip s) = false.
Proof.
  induction s as [|a r IH]; simpl; [done |].
  destruct (Ascii.eqb a c) eqn:E; [done |]. intros Hr.
  destruct (isspace a); [by apply IH |]. simpl. by rewrite E.
Qed.

Lemma contains_rstrip c s : contains c s = false -> contains c (rstrip s) = false.
Proof.
  induction s as [|a r IH]; simpl; [done |].
  destruct (Ascii.eqb a c) eqn:E; [done |]. intros Hr. specialize (IH Hr).
  destruct (rstrip r) as [|x r'].
  - destruct (isspace a); [done |]. simpl. by rewrite E.
  - simpl. rewrite E. exact IH.
Qed.

Lemma contains_strip c s : contains c s = false -> contains c (strip s) = false.
Proof. intros H. unfold strip. by apply contains_rstrip, contains_lstrip. Qed.

Lemma contains_split sep c s :
  contains c s = false -> Forall (fun t => contains c t = false) (split sep s).
Proof.
  induction s as [|a r IH]; simpl; [by repeat constructor |].
  destruct (Ascii.eqb a c) eqn:E; [done |]. intros Hr. specialize (IH Hr).
  destruct (Ascii.eqb a sep).
  - by constructor.
  - destruct (split sep r) as [|w ws]; [by repeat constructor; simpl; rewrite E |].
    apply Forall_cons in IH as [Hw Hws].
    constructor; [simpl; by rewrite E | done].
Qed.

Lemma no_at_in_token s t :
  contains "@" s = false -> t ∈ split "," s -> contains "@" (strip t) = false.
Proof.
  intros Hs Ht. apply contains_strip.
  pose proof (contains_split "," "@" s Hs) as Hall.
  rewrite Forall_forall in Hall. by apply Hall.
Qed.

Lemma split_ws_blank s : all_space s = true -> split_ws s = [].
Proof.
  unfold split_ws. induction s as [|c r IH]; simpl; [done |].
  intros [Hc Hr]%andb_true_iff. rewrite Hc. by apply IH.
Qed.

End WhiteSpace.

(** ** Calendar helpers *)

Section CalendarHelpers.
Import CalendarIntegration.

Lemma attendees_loop_closed tokens : forall acc,
  attendees_loop tokens acc
  = acc ++ ((fun x : string => ({[ "email" := x ]} : gmap string string))
              <$> filter (fun x => contains "@" x = true) (strip <$> tokens)).
Proof.
  induction tokens as [|t tokens IH]; intros acc; simpl.
  - by rewrite app_nil_r.
  - rewrite ?fmap_cons. destruct (contains "@" (strip t)) eqn:E.
    + rewrite filter_cons_True by done. rewrite IH, <- app_assoc. done.
    + rewrite filter_cons_False by (by rewrite E). apply IH.
Qed.

(** X16.  [_parse_attendees] keeps, in their order, the comma-separated
    tokens that contain [@] once stripped; so every attendee holds an [@],
    carries no white space at its ends, and an empty text or one without
    [@] gives no attendee. *)
Theorem parse_attendees_shape (participants_str : string) :
  _parse_attendees participants_str
  = (fun x : string => ({[ "email" := x ]} : gmap string string))
      <$> filter (fun x => contains "@" x = true)
                 (strip <$> split "," participants_str)
  /\ (forall a, a ∈ _parse_attendees participants_str ->
        exists x, a = {[ "email" := x ]}
                  /\ contains "@" x = true /\ strip x = x)
  /\ (contains "@" participants_str = false ->
      _parse_attendees participants_str = []).
Proof.
  assert (Hclosed :
    _parse_attendees participants_str
    = (fun x : string => ({[ "email" := x ]} : gmap string string))
        <$> filter (fun x => contains "@" x = true)
                   (strip <$> split "," participants_str)).
  { unfold _parse_attendees. destruct participants_str as [|c r]; [done |].
    cbn [truthy]. by rewrite attendees_loop_closed. }
  split_and!; [exact Hclosed | |].
  - rewrite Hclosed. intros a Ha.
    apply list_elem_of_fmap in Ha as (x & -> & Hx).
    apply list_elem_of_filter in Hx as [Hat Hx].
    apply list_elem_of_fmap in Hx as (t & -> & _).
    exists (strip t). split_and!; [done | done | apply strip_idem].
  - intros Hno. rewrite Hclosed.
    assert (Hall : Forall (fun t => contains "@" (strip t) = false)
                          (split "," participants_str)).
    { apply Forall_forall. intros t Ht. exact (no_at_in_token _ t Hno Ht). }
    clear Hclosed. induction Hall as [|t l Ht _ IHl]; [done |].
    rewrite fmap_cons, filter_cons_False by (by rewrite Ht). exact IHl.
Qed.

End CalendarHelpers.

Section FormatDatetime.
Import CalendarIntegration.

(** X17.  Of a time text only the first word counts for [_format_datetime]
    (a time zone written after the time is dropped), and with such a word
    the function does not raise: it returns the ISO form of the date and
    time read, or the reading of the clock when they cannot be read. *)
Theorem format_datetime_first_word
    (now_date now_time now_iso date_str time_str w : string) (ws : list string) :
  truthy time_str = true ->
  split_ws time_str = w :: ws ->
  _format_datetime now_date now_time now_iso date_str time_str
  = _format_datetime now_date now_time now_iso date_str w
  /\ exists r,
       _format_datetime now_date now_time now_iso date_str time_str = Ok r
       /\ (r = now_iso
           \/ exists dt,
                strptime_ymdhms ((if truthy date_str then date_str else now_date)
                                 +:+ "T" +:+ w +:+ ":00") = Ok dt
                /\ r = isoformat dt).
Proof.
  intros Ht Hsplit.
  pose proof (split_ws_from_words time_str EmptyString eq_refl) as Hwords.
  fold (split_ws time_str) in Hwords. rewrite Hsplit in Hwords.
  apply Forall_cons in Hwords as [[Hne Hw] _].
  assert (Hself : split_ws w = [w]).
  { unfold split_ws. rewrite (split_ws_from_word w EmptyString Hw). simpl.
    by destruct w. }
  assert (Htw : truthy w = true) by (by destruct w).
  unfold _format_datetime. rewrite Ht, Htw, Hsplit, Hself. cbn [first_item bind].
  split; [done |].
  destruct (strptime_ymdhms _) as [dt|] eqn:Hp; eexists; (split; [reflexivity |]).
  - right. by exists dt.
  - by left.
Qed.

Lemma format_datetime_first_word_witness :
  _format_datetime "2030-01-02" "03:04" "2030-01-02T03:04:05.000006"
                   "2024-05-01" "14:00 IST"
  = Ok "2024-05-01T14:00:00".
Proof.
  destruct (format_datetime_first_word
              "2030-01-02" "03:04" "2030-01-02T03:04:05.000006"
              "2024-05-01" "14:00 IST" "14:00" ["IST"] eq_refl eq_refl)
    as [Hfirst _].
  rewrite Hfirst. vm_compute. reflexivity.
Defined.

(** X18.  A time text that is not empty but holds white space only makes
    [_format_datetime] raise [IndexError] ([time_str.split()[0]] has nothing
    to take). *)
Theorem format_datetime_blank_time_raises
    (now_date now_time now_iso date_str time_str : string) :
  truthy time_str = true ->
  all_space time_str = true ->
  _format_datetime now_date now_time now_iso date_str time_str = Raise IndexError.
Proof.
  intros Ht Hblank. unfold _format_datetime.
  by rewrite Ht, (split_ws_blank _ Hblank).
Qed.

Lemma format_datetime_blank_time_raises_witness :
  _format_datetime "2030-01-02" "03:04" "2030-01-02T03:04:05.000006"
                   "2024-05-01" "  "
  = Raise IndexError.
Proof.
  exact (format_datetime_blank_time_raises
           "2030-01-02" "03:04" "2030-01-02T03:04:05.000006"
           "2024-05-01" "  " eq_refl eq_refl).
Defined.

End FormatDatetime.

Section FreeDay.
Import CalendarIntegration.

Lemma walk_events_untimed duration_minutes events : forall current_time free_slots,
  Forall untimed events ->
  walk_events duration_minutes events current_time free_slots
  = Ok (current_time, free_slots).
Proof.
  induction events as [|event rest IH]; intros cur acc Hall; [done |].
  apply Forall_cons in Hall as [(st & Hst & Hdt) Hrest].
  simpl. rewrite Hst. simpl.
  destruct (st !! "dateTime") as [[|c r]|]; [| discriminate Hdt |]; by apply IH.
Qed.

Lemma workday_seconds d :
  sub_seconds (combine d 17) (combine d 9) = Ok 28800.
Proof.
  unfold sub_seconds, wall_seconds, combine. simpl.
  f_equal. lia.
Qed.

(** X19.  On a day for which the provider lists no timed event (none at all,
    or all-day events only), [get_available_slots] returns the whole window
    09:00-17:00 when the duration asked is at most 480 minutes, and nothing
    otherwise; [suggest_meeting_times] then proposes the day at 09:00. *)
Theorem free_day_slots
    (svc : CalendarService) (date_str : string) (date_obj : datetime)
    (events : list Event) (duration_minutes : Z) (num_suggestions : nat) :
  strptime_ymd date_str = Ok date_obj ->
  events_list svc (isoformat (combine date_obj 9) +:+ "Z")
                  (isoformat (combine date_obj 17) +:+ "Z") = Ok events ->
  Forall untimed events ->
  get_available_slots svc date_str duration_minutes
  = (if duration_minutes <=? 480 then [mkSlot "09:00" "17:00"] else [])
  /\ suggest_meeting_times svc date_str duration_minutes num_suggestions
     = (if (duration_minutes <=? 480) && (0 <? num_suggestions)%nat
        then [date_str +:+ " at 09:00"] else []).
Proof.
  intros Hd Hl Hall.
  assert (Hslots : get_available_slots svc date_str duration_minutes
                   = (if duration_minutes <=? 480 then [mkSlot "09:00" "17:00"] else [])).
  { unfold get_available_slots, available_slots_body.
    rewrite Hd. cbn [bind]. rewrite Hl. cbn [bind].
    rewrite (walk_events_untimed _ _ _ _ Hall). cbn [bind fst snd].
    rewrite workday_seconds. cbn [bind catch].
    destruct (duration_minutes <=? 480) eqn:E.
    - assert ((60 * duration_minutes <=? 28800) = true) as -> by lia. reflexivity.
    - assert ((60 * duration_minutes <=? 28800) = false) as -> by lia. reflexivity. }
  split; [exact Hslots |].
  unfold suggest_meeting_times. rewrite Hslots.
  destruct (duration_minutes <=? 480); [| by destruct num_suggestions].
  destruct num_suggestions as [|n]; [done |].
  cbn [andb Nat.ltb Nat.leb take firstn]. by rewrite take_nil.
Qed.

Lemma free_day_slots_witness :
  Forall untimed [all_day_event "2024-05-01"]
  /\ get_available_slots (calendar_with [all_day_event "2024-05-01"]) "2024-05-01" 90
     = [CalendarIntegration.mkSlot "09:00" "17:00"]
  /\ suggest_meeting_times (calendar_with [all_day_event "2024-05-01"])
                           "2024-05-01" 90 3
     = ["2024-05-01 at 09:00"].
Proof.
  assert (Hu : Forall untimed [all_day_event "2024-05-01"]).
  { constructor; [| constructor]. eexists. split; reflexivity. }
  split; [exact Hu |].
  exact (free_day_slots (calendar_with [all_day_event "2024-05-01"]) "2024-05-01"
           (mkDT 2024 5 1 0 0 0 None) [all_day_event "2024-05-01"] 90 3
           eq_refl eq_refl Hu).
Defined.

End FreeDay.

(** ** Truncation *)

Section Truncation.
Import Helpers.

Lemma take_string_length n : forall s,
  String.length (take_string n s) = Nat.min n (String.length s).
Proof.
  induction n as [|n IH]; intros [|c r]; simpl; try done. by rewrite IH.
Qed.

Lemma truncated_length text max_length :
  max_length < Z.of_nat (String.length text) ->
  Z.of_nat (String.length (truncate_text text max_length))
  = (if max_length - 3 <? 0
     then Z.max 0 (Z.of_nat (String.length text) + (max_length - 3))
     else max_length - 3) + 3.
Proof.
  intros Hlong. unfold truncate_text, slice_to.
  assert ((Z.of_nat (String.length text) <=? max_length) = false) as -> by lia.
  rewrite string_length_app.
  change (String.length "...") with 3%nat.
  destruct (Z.ltb_spec (max_length - 3) 0); rewrite take_string_length; lia.
Qed.

(** X20.  With a limit of at least 3, the text that [truncate_text] returns
    is never longer than the limit: a text within the limit comes back as
    it is, a longer one is cut to exactly the limit, its last three
    characters being the dots. *)
Theorem truncate_text_within_limit (text : string) (max_length : Z) :
  3 <= max_length ->
  Z.of_nat (String.length (truncate_text text max_length)) <= max_length
  /\ truncate_text text max_length
     = (if Z.of_nat (String.length text) <=? max_length then text
        else take_string (Z.to_nat (max_length - 3)) text +:+ "...")
  /\ (if Z.of_nat (String.length text) <=? max_length then True
      else Z.of_nat (String.length (truncate_text text max_length)) = max_length).
Proof.
  intros Hmax.
  destruct (Z.of_nat (String.length text) <=? max_length) eqn:E.
  - unfold truncate_text. rewrite E. split_and!; [lia | done..].
  - assert (Hlong : max_length < Z.of_nat (String.length text)) by lia.
    pose proof (truncated_length text max_length Hlong) as Hlen.
    assert (Hk : (max_length - 3 <? 0) = false) by lia. rewrite Hk in Hlen.
    split_and!; [lia | | lia].
    unfold truncate_text, slice_to. rewrite E.
    by assert ((max_length - 3 <? 0) = false) as -> by lia.
Qed.

Lemma truncate_text_within_limit_witness :
  Helpers.truncate_text "The quarterly budget" 10 = "The qua...".
Proof.
  destruct (truncate_text_within_limit "The quarterly budget" 10 ltac:(lia))
    as (_ & Hcut & _).
  exact Hcut.
Defined.

(** X21.  With a limit under 3, a text longer than the limit is not
    shortened to it: the slice [text[:max_length-3]] counts from the end,
    and the result, dots included, is longer than the limit (for a limit
    from 0 to 2 and a text of three characters or more it is longer than the
    text itself by the limit). *)
Theorem truncate_text_small_limit (text : string) (max_length : Z) :
  max_length < 3 ->
  max_length < Z.of_nat (String.length text) ->
  max_length < Z.of_nat (String.length (truncate_text text max_length))
  /\ Z.of_nat (String.length (truncate_text text max_length))
     = Z.max 3 (Z.of_nat (String.length text) + max_length).
Proof.
  intros Hsmall Hlong.
  pose proof (truncated_length text max_length Hlong) as Hlen.
  assert (Hk : (max_length - 3 <? 0) = true) by lia. rewrite Hk in Hlen. lia.
Qed.

Lemma truncate_text_small_limit_witness :
  2 < Z.of_nat (String.length (Helpers.truncate_text "abcdef" 2))
  /\ Z.of_nat (String.length (Helpers.truncate_text "abcdef" 2)) = 8.
Proof.
  exact (truncate_text_small_limit "abcdef" 2 ltac:(lia) ltac:(simpl; lia)).
Defined.

End Truncation.

(** ** Generated text *)

Section GeneratedText.
Import LLMProcessor.

Lemma startswith_app p s : startswith p (p +:+ s) = true.
Proof.
  induction p as [|a p IH]; [done |]. rewrite append_cons. simpl.
  by rewrite Ascii.eqb_refl, IH.
Qed.

Lemma remove_from_skip old k : forall s,
  remove_from old k s = remove_from old 0 (drop_string k s).
Proof.
  induction k as [|k IH]; intros [|c r]; try done. simpl remove_from at 1.
  by rewrite IH.
Qed.

Lemma remove_all_echo old completion :
  remove_all old (old +:+ completion) = remove_all old completion
  \/ old = EmptyString.
Proof.
  destruct old as [|a p]; [by right |]. left.
  unfold remove_all. rewrite append_cons.
  change (remove_from (String a p) 0 (String a (p +:+ completion)))
    with (if startswith (String a p) (String a (p +:+ completion))
          then remove_from (String a p) (String.length (String a p) - 1)
                           (p +:+ completion)
          else String a (remove_from (String a p) 0 (p +:+ completion))).
  rewrite <- append_cons, startswith_app, remove_from_skip.
  replace (String.length (String a p) - 1)%nat with (String.length p)
    by (simpl; lia).
  by rewrite drop_string_app.
Qed.

Lemma remove_from_absent old : forall s,
  occurs old s = false -> remove_from old 0 s = s.
Proof.
  induction s as [|c r IH]; [done |]. intros Hno.
  change (occurs old (String c r))
    with (startswith old (String c r) || occurs old r) in Hno.
  apply orb_false_iff in Hno as [Hhere Hlater].
  change (remove_from old 0 (String c r))
    with (if startswith old (String c r)
          then remove_from old (String.length old - 1) r
          else String c (remove_from old 0 r)).
  by rewrite Hhere, IH.
Qed.

(** X22.  When the pipeline returns the prompt followed by a completion in
    which the prompt does not occur again, [generate_text] returns the
    completion without the white space around it; and what [generate_text]
    returns never has white space around it. *)
Theorem generate_text_drops_echo
    (pipe : string -> string) (prompt completion : string) :
  pipe prompt = prompt +:+ completion ->
  occurs prompt completion = false ->
  generate_text pipe prompt = strip completion
  /\ strip (generate_text pipe prompt) = generate_text pipe prompt.
Proof.
  intros Hpipe Hno. split; [| apply strip_idem].
  unfold generate_text. rewrite Hpipe.
  destruct (remove_all_echo prompt completion) as [-> | ->]; [| by destruct completion].
  unfold remove_all. destruct prompt; [done |]. by rewrite remove_from_absent.
Qed.

Lemma generate_text_drops_echo_witness :
  LLMProcessor.generate_text (fun p => p +:+ "  It asks for a meeting. ")
                             (LLMProcessor.summarize_prompt "Can we meet?")
  = "It asks for a meeting.".
Proof.
  destruct (generate_text_drops_echo
              (fun p => p +:+ "  It asks for a meeting. ")
              (summarize_prompt "Can we meet?")
              "  It asks for a meeting. " eq_refl ltac:(vm_compute; reflexivity))
    as [Hgen _].
  rewrite Hgen. vm_compute. reflexivity.
Defined.

End GeneratedText.

(** ** Meeting details: the shape of the entries *)

Section MeetingDetailsShape.
Import LLMProcessor.

Lemma contains_app c a b : contains c (a +:+ b) = contains c a || contains c b.
Proof.
  induction a as [|x a IH]; [done |]. rewrite append_cons. simpl.
  by destruct (Ascii.eqb x c).
Qed.

Lemma split_pieces sep s : Forall (fun t => contains sep t = false) (split sep s).
Proof.
  induction s as [|a r IH]; simpl; [by repeat constructor |].
  destruct (Ascii.eqb a sep) eqn:E; [by constructor |].
  destruct (split sep r) as [|w ws]; [by repeat constructor; simpl; rewrite E |].
  apply Forall_cons in IH as [Hw Hws].
  constructor; [simpl; by rewrite E | done].
Qed.

(** X23.  Every entry of the dictionary that the parser of
    [extract_meeting_details] returns has a key and a value without white
    space around them and without a newline, and a key without a colon. *)
Theorem meeting_details_entries_clean
    (result : string) (m : gmap string string) (k v : string) :
  parse_meeting_details result = Ok m ->
  m !! k = Some v ->
  strip k = k /\ strip v = v
  /\ contains ":" k = false
  /\ contains "010" k = false /\ contains "010" v = false.
Proof.
  intros Hm Hkv. unfold parse_meeting_details in Hm.
  destruct (parse_lines_sound _ _ _ Hm _ _ Hkv)
    as [He | (line & kraw & vraw & Hin & [Hline Hcolon] & -> & ->)];
    [by rewrite lookup_empty in He |].
  pose proof (split_pieces "010" (strip result)) as Hall.
  rewrite Forall_forall in Hall. specialize (Hall _ Hin).
  rewrite Hline, contains_app in Hall. apply orb_false_iff in Hall as [Hk Hv].
  change (contains "010" (String ":" vraw)) with (contains "010" vraw) in Hv.
  split_and!; [apply strip_idem | apply strip_idem | by apply contains_strip..].
Qed.

Lemma meeting_details_entries_clean_witness :
  strip "14:00 IST" = "14:00 IST" /\ contains ":" "Time" = false.
Proof.
  pose (m := (<["Time" := "14:00 IST"]> (<["Date" := "2024-05-01"]> ∅)
              : gmap string string)).
  assert (Hm : parse_meeting_details
                 ("  Date : 2024-05-01 " +:+ nl +:+ " Time: 14:00 IST  ") = Ok m)
    by (vm_compute; reflexivity).
  assert (Hkv : m !! "Time" = Some "14:00 IST") by (vm_compute; reflexivity).
  destruct (meeting_details_entries_clean _ m "Time" "14:00 IST" Hm Hkv)
    as (_ & Hv & Hk & _).
  exact (conj Hv Hk).
Defined.

End MeetingDetailsShape.

(** ** Search: formatting and the default query *)

Section SearchFormatting.
Import SearchIntegration.

Lemma format_result_built i item :
  exists block, format_result i (result_of item) = Ok block.
Proof.
  unfold format_result, result_of.
  rewrite lookup_insert_ne, lookup_insert_ne, lookup_insert_eq by done.
  rewrite lookup_insert_ne, lookup_insert_eq by done.
  rewrite lookup_insert_eq. simpl. by eexists.
Qed.

Lemma format_loop_built l : forall i formatted_text,
  exists rest,
    format_loop i formatted_text (result_of <$> l) = Ok (formatted_text +:+ rest).
Proof.
  induction l as [|item l IH]; intros i acc.
  - exists EmptyString. simpl. by rewrite append_nil_r.
  - rewrite fmap_cons. simpl.
    destruct (format_result_built i item) as [block ->]. simpl.
    destruct (IH (S i) (acc +:+ block)) as [rest ->].
    exists (block +:+ rest). by rewrite append_assoc.
Qed.

Lemma search_built self query num_results :
  exists l, search self query num_results = result_of <$> l.
Proof.
  rewrite search_unfold.
  destruct (provider_answer _ _ _) as [response|]; [| by exists []].
  destruct (status_code response =? 200); [| by exists []].
  destruct (json response) as [data|]; [| by exists []].
  by eexists.
Qed.

Lemma format_built l :
  exists text,
    format_results_for_llm (result_of <$> l) = Ok text
    /\ match l with
       | [] => text = "No search results found."
       | _ :: _ => exists rest, text = "Search Results:" +:+ nl +:+ nl +:+ rest
       end.
Proof.
  destruct l as [|item l]; [by eexists |].
  unfold format_results_for_llm. rewrite fmap_cons.
  destruct (format_loop_built (item :: l) 1 ("Search Results:" +:+ nl +:+ nl))
    as [rest Hrest].
  rewrite fmap_cons in Hrest. rewrite Hrest.
  eexists. split; [done |]. exists rest. by rewrite !append_assoc.
Qed.

(** X24.  [search_and_format] does not raise, whatever the provider does:
    the dictionaries that [search] builds hold the three keys that the
    formatting reads.  Without results the text is the fixed sentence; with
    results it starts with the heading and a blank line. *)
Theorem search_and_format_never_raises
    (self : t) (query : string) (num_results : Z) :
  exists text,
    search_and_format self query num_results = Ok text
    /\ match search self query num_results with
       | [] => text = "No search results found."
       | _ :: _ => exists rest, text = "Search Results:" +:+ nl +:+ nl +:+ rest
       end.
Proof.
  unfold search_and_format.
  destruct (search_built self query num_results) as [l ->].
  destruct (format_built l) as (text & Htext & Hshape).
  exists text. split; [done |]. destruct l; [done |]. rewrite fmap_cons. exact Hshape.
Qed.

Lemma split_ws_from_cut w : forall acc c r,
  no_space w = true -> isspace c = true ->
  split_ws_from acc (w +:+ String c r)
  = match acc +:+ w with
    | EmptyString => split_ws_from EmptyString r
    | word => word :: split_ws_from EmptyString r
    end.
Proof.
  induction w as [|x w IH]; intros acc c r Hw Hc.
  - rewrite append_nil_r. change (EmptyString +:+ String c r) with (String c r).
    simpl. rewrite Hc. by destruct acc.
  - rewrite append_cons. simpl in Hw. apply andb_true_iff in Hw as [Hx Hw].
    apply negb_true_iff in Hx. simpl. rewrite Hx, (IH _ _ _ Hw Hc), append_assoc.
    done.
Qed.

(** Joining words with single spaces and splitting again gives the words. *)
Lemma split_ws_join ws :
  Forall (fun w => w <> EmptyString /\ no_space w = true) ws ->
  split_ws (join " " ws) = ws.
Proof.
  unfold split_ws. induction 1 as [|w ws [Hne Hw] Hall IH]; [done |].
  destruct ws as [|w' ws].
  - simpl. rewrite (split_ws_from_word w EmptyString Hw). simpl. by destruct w.
  - change (join " " (w :: w' :: ws)) with (w +:+ " " +:+ join " " (w' :: ws)).
    change (" " +:+ join " " (w' :: ws)) with (String " " (join " " (w' :: ws))).
    rewrite (split_ws_from_cut w EmptyString " " _ Hw eq_refl), IH. simpl.
    by destruct w.
Qed.

(** X25.  Without a query of its own (none, or an empty one),
    [enhance_email_with_search] searches for the first ten words of the
    email at most, joined by single spaces, and asks for five results. *)
Theorem enhance_query_is_first_ten_words
    (self : t) (email_content : string) (search_query : option string) :
  truthy_opt search_query = false ->
  exists query,
    enhance_email_with_search self email_content search_query
    = search_and_format self query 5
    /\ split_ws query = take 10 (split_ws email_content)
    /\ (length (split_ws query) <= 10)%nat.
Proof.
  intros Hnone. exists (join " " (take 10 (split_ws email_content))).
  assert (Hround : split_ws (join " " (take 10 (split_ws email_content)))
                   = take 10 (split_ws email_content)).
  { apply split_ws_join, Forall_take.
    apply (split_ws_from_words email_content EmptyString eq_refl). }
  split_and!; [| exact Hround |].
  - unfold enhance_email_with_search, search_and_format.
    by destruct search_query as [[|c r]|].
  - rewrite Hround, length_take. lia.
Qed.

Lemma enhance_query_is_first_ten_words_witness :
  exists query,
    SearchIntegration.enhance_email_with_search answering_provider
      "  Could you   send the budget for the next quarter before Friday noon please?"
      (Some EmptyString)
    = SearchIntegration.search_and_format answering_provider query 5
    /\ split_ws query
       = ["Could"; "you"; "send"; "the"; "budget"; "for"; "the"; "next";
          "quarter"; "before"].
Proof.
  destruct (enhance_query_is_first_ten_words answering_provider
              "  Could you   send the budget for the next quarter before Friday noon please?"
              (Some EmptyString) eq_refl)
    as (query & Hcall & Hwords & _).
  exists query. split; [exact Hcall |]. rewrite Hwords. vm_compute. reflexivity.
Defined.

End SearchFormatting.

(** ** The actions of the Inbox page *)

Section InboxActions.
Import MemoryManager LLMProcessor App.

(** X26.  The Generate Response action always ends without an exception and
    always hands a context to the model: the text of the search, kept in
    the session, is never empty, so the prompt carries it after
    [Additional context: ] and the sentence for a missing context is never
    used. *)
Theorem generate_response_always_has_context
    (pipe : string -> string) (search : SearchIntegration.t)
    (email : Email.t) (st : session) :
  exists results_text,
    SearchIntegration.search_and_format search
      (generate_search_query pipe (Email.body email)) 3 = Ok results_text
    /\ context_section (Some results_text) = "Additional context: " +:+ results_text
    /\ generate_response_clicked pipe search email st
       = (mkSession
            (generate_text pipe
               (response_prompt (Email.body email) (Email.sender email)
                                (Some results_text)))
            results_text (ss_meeting_details st) (ss_available_slots st),
          None).
Proof.
  unfold generate_response_clicked, SearchIntegration.search_and_format.
  destruct (search_built search (generate_search_query pipe (Email.body email)) 3)
    as [l ->].
  destruct (format_built l) as (text & -> & Hshape).
  exists text. split_and!; [done | | done].
  destruct l; [by subst |]. destruct Hshape as [rest ->]. done.
Qed.

(** X27.  When the search provider fails, the Generate Response action still
    drafts a response: the session keeps the sentence for no results, and
    that sentence is the context of the prompt. *)
Theorem failed_search_still_drafts
    (pipe : string -> string) (search : SearchIntegration.t)
    (email : Email.t) (st : session) :
  provider_failure
    (provider_answer search (generate_search_query pipe (Email.body email)) 3) ->
  generate_response_clicked pipe search email st
  = (mkSession
       (generate_text pipe
          (response_prompt (Email.body email) (Email.sender email)
                           (Some "No search results found.")))
       "No search results found." (ss_meeting_details st) (ss_available_slots st),
     None).
Proof.
  intros Hfail.
  unfold generate_response_clicked, SearchIntegration.search_and_format.
  rewrite search_unfold.
  destruct Hfail as [e | response Hstatus | response e Hbody]; [done | |].
  - by assert ((SearchIntegration.status_code response =? 200) = false) as -> by lia.
  - rewrite Hbody. by destruct (SearchIntegration.status_code response =? 200).
Qed.

Lemma failed_search_still_drafts_witness :
  ss_search_results
    (fst (App.generate_response_clicked (fun p => p +:+ " Thanks.") refusing_provider
            budget_row (App.mkSession EmptyString EmptyString ∅ [])))
  = "No search results found.".
Proof.
  rewrite (failed_search_still_drafts (fun p => p +:+ " Thanks.") refusing_provider
             budget_row (mkSession EmptyString EmptyString ∅ [])).
  - reflexivity.
  - apply bad_status. vm_compute. discriminate.
Defined.

(** X28.  The Analyze Email action leaves the draft and the search text of
    the session alone.  It ends with an exception in two cases only, both
    after a date was extracted and the meeting details were stored: there is
    no calendar ([AttributeError]), or there is one and the duration is not
    an integer ([ValueError]); the slots of the session are then the old
    ones. *)
Theorem analyze_clicked_outcomes
    (pipe : string -> string)
    (calendar : option CalendarIntegration.CalendarService)
    (email : Email.t) (st : session) :
  exists st' outcome,
    analyze_clicked pipe calendar email st = (st', outcome)
    /\ ss_draft_response st' = ss_draft_response st
    /\ ss_search_results st' = ss_search_results st
    /\ match outcome with
       | None => True
       | Some e =>
           ss_available_slots st' = ss_available_slots st
           /\ extract_meeting_details (generate_text pipe) (Email.body email)
              = Ok (ss_meeting_details st')
           /\ is_Some (ss_meeting_details st' !! "Date")
           /\ match calendar with
              | None => e = AttributeError
              | Some _ =>
                  e = ValueError
                  /\ py_int (default "60" (ss_meeting_details st' !! "Duration"))
                     = Raise ValueError
              end
       end.
Proof.
  unfold analyze_clicked.
  destruct (occurs _ _); [| by eexists _, _].
  unfold extract_meeting_details.
  unfold parse_meeting_details.
  destruct (parse_lines_total
              (split "010" (strip (generate_text pipe
                                     (meeting_prompt (Email.body email))))) ∅)
    as [m Hm].
  rewrite Hm.
  destruct (m !! "Date") as [date|] eqn:Hdate; [| by eexists _, _].
  destruct calendar as [svc|]; [| by eexists _, _; split_and!; rewrite ?Hdate].
  destruct (py_int _) as [duration|e] eqn:Hint; [by eexists _, _ |].
  eexists _, _. split; [reflexivity |]. cbn [ss_draft_response ss_search_results
    ss_available_slots ss_meeting_details]. rewrite Hdate.
  assert (e = ValueError) as ->.
  { unfold py_int in Hint.
    by repeat match type of Hint with
              | context [match ?x with _ => _ end] => destruct x
              end; simplify_eq. }
  by split_and!.
Qed.

End InboxActions.

(** ** Tags: what is removed and what is kept *)

Section TagEdges.
Import EmailIntegration.

Lemma sub_tags_prefix before s :
  contains "<" before = false ->
  sub_tags 0 (before +:+ s) = before +:+ sub_tags 0 s.
Proof.
  induction before as [|c r IH]; [done |]. rewrite !append_cons. simpl.
  destruct (Ascii.eqb c "<"); [done |]. intros Hr. by rewrite IH.
Qed.

Lemma lazy_close_unclosed s : contains ">" s = false -> lazy_close s = None.
Proof.
  induction s as [|c r IH]; simpl; [done |].
  destruct (Ascii.eqb c ">"); [done |]. intros Hr.
  destruct (Ascii.eqb c "<"); [done |]. by rewrite IH.
Qed.

(** X12.  A tag that is well formed ([<], a character other than [<], any
    characters other than [<] and [>], then [>]) is removed wherever it
    stands: the text before it, when free of [<], is kept, and the removal
    goes on after the tag. *)
Theorem well_formed_tag_is_removed (before inner after : string) (c1 : ascii) :
  contains "<" before = false ->
  c1 <> "<"%char ->
  contains "<" inner = false -> contains ">" inner = false ->
  strip_tags (before +:+ String "<" (String c1 (inner +:+ String ">" after)))
  = before +:+ strip_tags after.
Proof.
  intros Hb Hc Hlt Hgt. unfold strip_tags at 1. rewrite sub_tags_prefix by done.
  f_equal. by apply strip_tags_tag.
Qed.

Lemma well_formed_tag_is_removed_witness :
  EmailIntegration.strip_tags "Dear <b class='x'>Ann, 3 > 2" = "Dear Ann, 3 > 2".
Proof.
  exact (well_formed_tag_is_removed "Dear " " class='x'" "Ann, 3 > 2" "b"
           eq_refl ltac:(discriminate) eq_refl eq_refl).
Defined.

(** X29.  Nothing is removed from a text without [>]: a [<] that is never
    closed stays, with all that follows it. *)
Theorem unclosed_bracket_is_kept (s : string) :
  contains ">" s = false -> strip_tags s = s.
Proof.
  unfold strip_tags. induction s as [|c r IH]; simpl; [done |].
  destruct (Ascii.eqb c ">"); [done |]. intros Hr. rewrite (IH Hr).
  destruct (Ascii.eqb c "<"); [| done].
  destruct r as [|c1 r']; [done |]. simpl.
  destruct (Ascii.eqb c1 "<"); [done |].
  simpl in Hr. destruct (Ascii.eqb c1 ">"); [done |].
  by rewrite lazy_close_unclosed.
Qed.

Lemma unclosed_bracket_is_kept_witness :
  EmailIntegration.strip_tags "if a < b then stop" = "if a < b then stop".
Proof. exact (unclosed_bracket_is_kept "if a < b then stop" eq_refl). Defined.

End TagEdges.

(** ** Runs on sample data *)

Section FurtherExamples.
Import MemoryManager EmailIntegration CalendarIntegration.

Lemma saved_email_is_found_witness :
  get_email_by_id (store_of [budget_mail]) "18f3a1" = Some budget_row.
Proof.
  exact (proj1 (saved_email_is_found 0 init_db (store_of [budget_mail])
                  budget_mail budget_row eq_refl)).
Defined.

Lemma get_all_emails_newest_first_witness :
  get_all_emails (store_of [other_mail; later_mail; budget_mail]) 2
  = [email_row 0 later_mail; email_row 0 budget_mail]
  /\ StronglySorted timestamp_ge
       (get_all_emails (store_of [other_mail; later_mail; budget_mail]) 2).
Proof.
  split; [vm_compute; reflexivity |].
  exact (proj1 (proj2 (get_all_emails_newest_first
                         (store_of [other_mail; later_mail; budget_mail]) 2
                         ltac:(lia)))).
Defined.

Lemma listed_email_resolves_witness :
  get_email_by_id (store_of [other_mail; later_mail; budget_mail]) "18f3b7"
  = Some (email_row 0 later_mail).
Proof.
  apply (listed_email_resolves
           (store_of [other_mail; later_mail; budget_mail]) 1 (email_row 0 later_mail)).
  - apply (bool_decide_unpack _). vm_compute. reflexivity.
  - assert (H : get_all_emails (store_of [other_mail; later_mail; budget_mail]) 1
                = [email_row 0 later_mail]) by (vm_compute; reflexivity).
    rewrite H. apply list_elem_of_singleton. reflexivity.
Defined.

Lemma get_emails_stores_what_it_returns_witness :
  exists messages,
    messages_list one_message_inbox 10 = Ok messages
    /\ [budget_mail] = omap parse_budget_mail messages
    /\ emails (store_of [budget_mail]) = emails init_db ++ (email_row 0 <$> [budget_mail])
    /\ responses (store_of [budget_mail]) = responses init_db
    /\ (NoDup (Email.id <$> emails init_db)
        -> NoDup (Email.id <$> emails (store_of [budget_mail]))).
Proof.
  exact (get_emails_stores_what_it_returns one_message_inbox parse_budget_mail
           0 10 init_db (store_of [budget_mail]) [budget_mail] eq_refl).
Defined.

Lemma get_emails_stored_message_raises_witness :
  get_emails one_message_inbox parse_budget_mail 0 10
             (store_of [other_mail; budget_mail])
  = Raise IntegrityError.
Proof.
  apply (get_emails_stored_message_raises one_message_inbox parse_budget_mail 0 10
           (store_of [other_mail; budget_mail]) ["18f3a1"] "18f3a1" budget_mail).
  - reflexivity.
  - apply list_elem_of_singleton. reflexivity.
  - reflexivity.
  - apply elem_of_cons. right. apply list_elem_of_singleton. reflexivity.
Defined.

Lemma parsed_email_invariants_witness :
  exists e,
    _parse_email sample_env sample_reader "18f3a1" = Some e
    /\ ed_id e = "18f3a1"
    /\ ed_thread_id e = "18f3a1"
    /\ ed_body e = "Hi there, plainly."
    /\ length (ed_attachments e) = 1%nat.
Proof.
  destruct (_parse_email sample_env sample_reader "18f3a1") as [e|] eqn:He;
    [| vm_compute in He; discriminate He].
  destruct (parsed_email_invariants sample_env sample_reader "18f3a1" e He)
    as (message & pl & Hm & Hpl & Hid & Hthread & _ & Hbody & Hlen & _).
  injection Hm as <-. injection Hpl as <-.
  exists e. split_and!; [reflexivity | exact Hid | exact Hthread | | exact Hlen].
  assert (Hb : _get_email_body (env_decode sample_env) sample_payload
               = Ok "Hi there, plainly.") by (vm_compute; reflexivity).
  rewrite Hb in Hbody. injection Hbody as Hbody. symmetry. exact Hbody.
Defined.

Lemma failed_attachment_drops_message_witness :
  _parse_email sample_env failing_reader "18f3a1" = None.
Proof.
  apply (failed_attachment_drops_message sample_env failing_reader "18f3a1"
           sample_message sample_payload report_part
           [leaf "text/plain" plain_data; report_part] "att1" ProviderError);
    try reflexivity.
  apply elem_of_cons. right. apply list_elem_of_singleton. reflexivity.
Defined.

Lemma refresh_of_stored_message_raises_witness :
  get_emails one_message_inbox (_parse_email sample_env sample_reader) 0 10
             (store_of [budget_mail])
  = Raise IntegrityError.
Proof.
  apply (refresh_of_stored_message_raises sample_env sample_reader one_message_inbox
           0 10 (store_of [budget_mail]) ["18f3a1"] "18f3a1").
  - reflexivity.
  - apply list_elem_of_singleton. reflexivity.
  - eexists. vm_compute. reflexivity.
  - apply list_elem_of_singleton. reflexivity.
Defined.

Lemma reply_without_message_id_witness :
  exists m,
    build_message
      (original_with [("Message-Id", "<abc@x>"); ("References", "<r1@x>")])
      "bob@example.com" "Hello" "Fine." (Some "18f3a1") = Ok m
    /\ get_all m "In-Reply-To" = []
    /\ get_all m "References" = ["<r1@x>"].
Proof.
  destruct (reply_without_message_id
              (original_with [("Message-Id", "<abc@x>"); ("References", "<r1@x>")])
              "bob@example.com" "Hello" "Fine." "18f3a1"
              [("Message-Id", "<abc@x>"); ("References", "<r1@x>")]
              eq_refl eq_refl ltac:(vm_compute; reflexivity))
    as (m & Hm & Hin & Href).
  exists m. split_and!; [exact Hm | exact Hin |].
  rewrite Href. vm_compute. reflexivity.
Defined.

Lemma reply_without_original_is_not_sent_witness :
  send_email (mkGmail (messages_list one_message_inbox)
                      (messages_get_metadata one_message_inbox)
                      (fun _ => Ok "18f3a2"))
             "bob@example.com" "Hello" "Fine." (Some "18f3a1")
  = false.
Proof.
  exact (proj2 (reply_without_original_is_not_sent one_message_inbox
                  "bob@example.com" "Hello" "Fine." "18f3a1" ProviderError
                  (fun _ => Ok "18f3a2") eq_refl eq_refl)).
Defined.

Lemma strip_tags_shrinks_witness :
  strip_tags "3 > 2, as said" = "3 > 2, as said".
Proof. exact (proj2 (strip_tags_shrinks "3 > 2, as said") eq_refl). Defined.

Lemma quiet_container_ends_the_search_witness :
  _get_email_body b64_text
    (container "multipart/mixed"
       [leaf "image/png" "iVBORw==";
        container "multipart/related" [leaf "image/png" "iVBORw=="];
        leaf "text/plain" plain_data])
  = Ok no_content.
Proof.
  assert (Himg : not_text_part (leaf "image/png" "iVBORw==")).
  { exists "image/png". split; [reflexivity |]. intros [H | H]; discriminate H. }
  apply (quiet_container_ends_the_search b64_text _
           (container "multipart/related" [leaf "image/png" "iVBORw=="])
           [leaf "image/png" "iVBORw=="] [leaf "text/plain" plain_data]).
  - reflexivity.
  - reflexivity.
  - constructor; [| constructor]. split; [exact Himg | reflexivity].
  - constructor.
    + exists "multipart/related". split; [reflexivity |].
      intros [H | H]; discriminate H.
    + intros l Hl. injection Hl as <-. split; [reflexivity |].
      constructor; [| constructor]. constructor; [exact Himg |].
      intros l Hl. discriminate Hl.
  - eexists. reflexivity.
Defined.

Lemma malformed_part_raises_witness :
  _get_email_body b64_text
    (container "multipart/mixed"
       [mkPart None None None None; leaf "text/plain" plain_data])
  = Raise KeyError.
Proof.
  apply (malformed_part_raises b64_text _ (mkPart None None None None)
           [] [leaf "text/plain" plain_data]).
  - reflexivity.
  - reflexivity.
  - constructor.
  - left. reflexivity.
Defined.

Lemma parse_attendees_shape_witness :
  _parse_attendees "Ann, Bob and Carol" = [].
Proof.
  exact (proj2 (proj2 (parse_attendees_shape "Ann, Bob and Carol")) eq_refl).
Defined.

End FurtherExamples.
